(** * Nodal temperature export from an Abaqus ODB archive

    A shallow embedding of [extract_temperature.py]: the coordinate cache,
    the node-set resolver, the lazily opened CSV writers and the frame loop
    of [export_temperatures], followed by the properties its specification
    states about them.

    Conventions of the embedding.
    - Python [float] values (frame times, coordinates, field data) are
      finite doubles and are carried as the rationals they denote; the only
      operations the program applies to them are [<] and [>].
    - Python [int] is [Z]; an index produced by [enumerate] is a [nat].
    - The archive is the read-only object graph that [odbAccess] exposes.
      [FieldOutput.getSubset] belongs to Abaqus and is a field of the
      model, not a definition of this file.
    - Everything the program does to the outside world is recorded as a
      list of events, in program order; exceptions are values. *)

From Stdlib Require Import ZArith QArith List String Ascii Lia Bool.
From Stdlib Require Import Permutation Sorted DecimalString.
From stdpp Require Import base option list gmap strings.

Local Open Scope string_scope.
Local Open Scope list_scope.

(** ** The archive, as [odbAccess] exposes it *)

Definition Coordinates : Type := Q * Q * Q.

Record OdbMeshNode := mkNode {
  label : Z;
  coordinates : Coordinates
}.

Record OdbInstance := mkInstance {
  name : string;
  nodes : list OdbMeshNode
}.

(** A node set of the root assembly.  The program reads its [name] and
    hands the object back to [getSubset]. *)
Record OdbSet := mkSet {
  node_set_name : string;
  node_set_nodes : list (string * Z)
}.

(** One entry of [subset.values]: [value.instance], [value.nodeLabel],
    [value.data]. *)
Record FieldValue := mkValue {
  instance : OdbInstance;
  nodeLabel : Z;
  data : Q
}.

(** [getSubset (Some s)] is [field.getSubset(region=s, position=NODAL).values],
    [getSubset None] is [field.getSubset(position=NODAL).values]. *)
Record FieldOutput := mkField {
  getSubset : option OdbSet → list FieldValue
}.

Record OdbFrame := mkFrame {
  frameValue : Q;
  fieldOutputs : gmap string FieldOutput
}.

Record OdbStep := mkStep {
  frames : list OdbFrame
}.

(** [instances] is [rootAssembly.instances.values()], in iteration order. *)
Record OdbAssembly := mkAssembly {
  instances : list OdbInstance;
  nodeSets : gmap string OdbSet
}.

Record Odb := mkOdb {
  steps : gmap string OdbStep;
  rootAssembly : OdbAssembly
}.

(** ** Output records and events *)

Inductive Cell :=
| CInt (n : Z)
| CFloat (q : Q)
| CStr (s : string).

(** What [writer.writerow] receives: the header (a sequence of strings) or
    a data row (a list of mixed cells). *)
Inductive Line :=
| HeaderLine (columns : list string)
| DataLine (cells : list Cell).

Inductive Event :=
| EvOpenOdb (path : string)            (* openOdb(path, readOnly=True) *)
| EvCloseOdb                           (* odb.close() *)
| EvFieldLookup (frame_index : nat)    (* frame.fieldOutputs consulted *)
| EvOpen (handle : nat) (path : string)(* makedirs + open(path, "w") *)
| EvWrite (handle : nat) (line : Line) (* writer.writerow(line) *)
| EvClose (handle : nat).              (* handle.close() *)

Inductive Key :=
| KStr (s : string)
| KInt (n : Z).

Inductive exn :=
| ValueError (msg : string)
| SystemExit (msg : string)
| KeyError (key : Key).

Inductive result (A : Type) :=
| Ok (a : A)
| Raise (e : exn).
Arguments Ok {A} a.
Arguments Raise {A} e.

(** ** Program state and the monad of the embedding

    [writer_handles] is the dictionary of the same name, in insertion order
    (the order [.values()] iterates in); a handle is the number of files
    opened before it. *)

Record State := mkState {
  writer_handles : list (string * nat);
  next_handle : nat
}.

Definition initial_state : State := mkState [] 0.

Definition M (A : Type) : Type := State → list Event * State * result A.

Definition ret {A} (a : A) : M A := λ s, ([], s, Ok a).

Definition raise {A} (e : exn) : M A := λ s, ([], s, Raise e).

Definition bind {A B} (m : M A) (k : A → M B) : M B :=
  λ s, match m s with
       | (ev1, s1, Ok a) =>
           match k a s1 with
           | (ev2, s2, r) => (ev1 ++ ev2, s2, r)
           end
       | (ev1, s1, Raise e) => (ev1, s1, Raise e)
       end.

Notation "x <- m ;; k" := (bind m (λ x, k))
  (at level 100, m at next level, right associativity).
Notation "m ;; k" := (bind m (λ _, k))
  (at level 100, right associativity).

Definition emit (e : Event) : M unit := λ s, ([e], s, Ok tt).

(** A pure computation that may raise. *)
Definition lift {A} (r : result A) : M A := λ s, ([], s, r).

Definition gets {A} (f : State → A) : M A := λ s, ([], s, Ok (f s)).

Definition modify (f : State → State) : M unit := λ s, ([], f s, Ok tt).

(** [try: body finally: cleanup].  The cleanup always runs; an exception of
    the cleanup replaces the one of the body. *)
Definition try_finally {A} (body : M A) (cleanup : M unit) : M A :=
  λ s, match body s with
       | (ev1, s1, r) =>
           match cleanup s1 with
           | (ev2, s2, Ok _) => (ev1 ++ ev2, s2, r)
           | (ev2, s2, Raise e) => (ev1 ++ ev2, s2, Raise e)
           end
       end.

(** [for x in xs: body(x)] without [break] or [continue]. *)
Fixpoint for_each {A} (body : A → M unit) (xs : list A) : M unit :=
  match xs with
  | [] => ret tt
  | x :: rest => body x ;; for_each body rest
  end.

(** ** Dictionaries kept in insertion order *)

Fixpoint dict_get {V} (k : string) (d : list (string * V)) : option V :=
  match d with
  | [] => None
  | (k', v) :: rest => if String.eqb k k' then Some v else dict_get k rest
  end.

Fixpoint dict_set {V} (k : string) (v : V) (d : list (string * V))
  : list (string * V) :=
  match d with
  | [] => [(k, v)]
  | (k', v') :: rest =>
      if String.eqb k k' then (k, v) :: rest else (k', v') :: dict_set k v rest
  end.

(** ** Strings *)

(** [s.replace(old, new)] for one-character [old] and [new]. *)
Fixpoint replace (old new : ascii) (s : string) : string :=
  match s with
  | EmptyString => EmptyString
  | String c rest =>
      String (if Ascii.eqb c old then new else c) (replace old new rest)
  end.

(** [sep.join(parts)]. *)
Definition join (sep : string) (parts : list string) : string :=
  String.concat sep parts.

(** [sorted(names)] on strings: code-point order. *)
Fixpoint insert_sorted (x : string) (l : list string) : list string :=
  match l with
  | [] => [x]
  | y :: rest =>
      if String.leb x y then x :: y :: rest else y :: insert_sorted x rest
  end.

Definition sorted (l : list string) : list string :=
  foldr insert_sorted [] l.

(** [str(n)] for a non-negative integer. *)
Definition str_nat (n : nat) : string :=
  NilZero.string_of_uint (Nat.to_uint n).

(** [s.rfind(c)]: the index of the last occurrence, [-1] when absent. *)
Fixpoint rfind_from (c : ascii) (s : string) (i last : Z) : Z :=
  match s with
  | EmptyString => last
  | String a rest =>
      rfind_from c rest (i + 1)%Z (if Ascii.eqb a c then i else last)
  end.

Definition rfind (c : ascii) (s : string) : Z := rfind_from c s 0%Z (-1)%Z.

(** The [while] loop of [genericpath._splitext]: is there a character other
    than the dot in [p[filenameIndex : filenameIndex + n]]? *)
Fixpoint has_non_dot (p : string) (filenameIndex n : nat) : bool :=
  match n with
  | O => false
  | S n' =>
      match String.get filenameIndex p with
      | Some c =>
          if negb (Ascii.eqb c ".") then true
          else has_non_dot p (S filenameIndex) n'
      | None => true
      end
  end.

(** ** The program *)

(** Lines 28-36. *)
Definition coord_map_of (nodes : list OdbMeshNode) : gmap Z Coordinates :=
  foldl (λ coord_map node, <[label node := coordinates node]> coord_map)
        ∅ nodes.

Definition _build_coordinate_cache (instances : list OdbInstance)
  : gmap string (gmap Z Coordinates) :=
  foldl (λ cache instance, <[name instance := coord_map_of (nodes instance)]> cache)
        ∅ instances.

(** [sorted(repository.keys())]. *)
Definition sorted_keys {V} (repository : gmap string V) : list string :=
  sorted (map_to_list repository).*1.

Definition node_set_not_found (set_name available : string) : string :=
  "Node set '" +:+ set_name +:+ "' not found in the ODB. Available sets: "
  +:+ available.

(** Lines 39-49. *)
Fixpoint _resolve_node_sets (root_assembly : OdbAssembly)
    (requested_sets : list string) : M (list OdbSet) :=
  match requested_sets with
  | [] => ret []
  | set_name :: rest =>
      match nodeSets root_assembly !! set_name with
      | None =>
          let available := join ", " (sorted_keys (nodeSets root_assembly)) in
          raise (SystemExit (node_set_not_found set_name available))
      | Some node_set =>
          resolved <- _resolve_node_sets root_assembly rest ;;
          ret (node_set :: resolved)
      end
  end.

(** [open(path, "w", newline="")], after the parent directory was made:
    the file at [path] is created, or truncated when it exists.  The
    embedding has no I/O errors: an [OSError] of [os.makedirs] or [open]
    (a name too long, a directory that cannot be written) is not modelled,
    so every statement about a run is about a run whose files could be
    opened and written. *)
Definition open_file (path : string) : M nat :=
  λ s, ([EvOpen (next_handle s) path],
        mkState (writer_handles s) (S (next_handle s)),
        Ok (next_handle s)).

Definition writerow (writer : nat) (line : Line) : M unit :=
  emit (EvWrite writer line).

Definition close (handle : nat) : M unit := emit (EvClose handle).

(** Lines 52-57.  A csv writer is identified with the handle it wraps. *)
Definition _open_writer (path : string) (header : list string) : M nat :=
  handle <- open_file path ;;
  writerow handle (HeaderLine header) ;;
  ret handle.

Definition register_writer (key : string) (handle : nat) : M unit :=
  modify (λ s, mkState (dict_set key handle (writer_handles s)) (next_handle s)).

Definition header_row (field_variable : string) : list string :=
  ["frame_index"; "step_time"; "node_set"; "instance"; "node_label";
   "x"; "y"; "z"; field_variable].

Definition step_not_found (step_name odb_path available : string) : string :=
  "Step '" +:+ step_name +:+ "' not found in ODB '" +:+ odb_path
  +:+ "'. Available steps: " +:+ available.

Definition field_not_stored (field_variable : string) (frame_index : nat)
    (step_name : string) : string :=
  "Field '" +:+ field_variable +:+ "' not stored in frame "
  +:+ str_nat frame_index +:+ " of step '" +:+ step_name +:+ "'.".

(** [current_time < start_time] and [current_time > end_time] on floats. *)
Definition Qltb (a b : Q) : bool := negb (Qle_bool b a).

Section Platform.

(** [os.sep] and [os.altsep] of the platform the script runs on. *)
Variable os_sep : ascii.
Variable os_altsep : option ascii.

(** [os.path.splitext], after [genericpath._splitext]. *)
Definition splitext (p : string) : string * string :=
  let sepIndex := rfind os_sep p in
  let sepIndex :=
    match os_altsep with
    | Some altsep => Z.max sepIndex (rfind altsep p)
    | None => sepIndex
    end in
  let dotIndex := rfind "." p in
  if (sepIndex <? dotIndex)%Z
     && has_non_dot p (Z.to_nat (sepIndex + 1))
                      (Z.to_nat (dotIndex - (sepIndex + 1)))
  then (substring 0 (Z.to_nat dotIndex) p,
        substring (Z.to_nat dotIndex)
                  (String.length p - Z.to_nat dotIndex) p)
  else (p, "").

Definition safe_name_of (set_name : string) : string :=
  replace " " "_" (replace os_sep "_" set_name).

Definition split_path (base ext set_name : string) : string :=
  base +:+ "__" +:+ safe_name_of set_name +:+ ext.

(** Lines 100-105: [get_writer] of the split mode. *)
Definition get_writer_split (base ext : string) (header : list string)
    (set_name : string) : M nat :=
  let path := split_path base ext set_name in
  known <- gets (λ s, dict_get set_name (writer_handles s)) ;;
  match known with
  | None =>
      handle <- _open_writer path header ;;
      register_writer set_name handle
  | Some _ => ret tt
  end ;;
  entry <- gets (λ s, dict_get set_name (writer_handles s)) ;;
  match entry with
  | Some writer => ret writer
  | None => raise (KeyError (KStr set_name))
  end.

Section Loop.

Variable field_variable : string.
Variable step_name : string.
Variables start_time end_time : option Q.
Variable frame_stride : Z.
Variable regions : option (list OdbSet).
Variable coord_cache : gmap string (gmap Z Coordinates).
Variable get_writer : string → M nat.

(** [coord_cache[instance_name][node_label]]. *)
Definition lookup_coords (instance_name : string) (node_label : Z)
  : result Coordinates :=
  match coord_cache !! instance_name with
  | None => Raise (KeyError (KStr instance_name))
  | Some coord_map =>
      match coord_map !! node_label with
      | None => Raise (KeyError (KInt node_label))
      | Some coords => Ok coords
      end
  end.

(** Lines 139-154: the body of the loop over [subset.values]. *)
Definition write_value (frame_index : nat) (current_time : Q)
    (region_name : string) (value : FieldValue) : M unit :=
  let instance_name := name (instance value) in
  coords <- lift (lookup_coords instance_name (nodeLabel value)) ;;
  writer <- get_writer region_name ;;
  writerow writer
    (DataLine [CInt (Z.of_nat frame_index); CFloat current_time;
               CStr region_name; CStr instance_name;
               CInt (nodeLabel value);
               CFloat coords.1.1; CFloat coords.1.2; CFloat coords.2;
               CFloat (data value)]).

(** Lines 129-135. *)
Definition region_iter (field : FieldOutput)
  : list (string * list FieldValue) :=
  match regions with
  | Some (node_set :: others) =>
      map (λ node_set, (node_set_name node_set, getSubset field (Some node_set)))
          (node_set :: others)
  | _ => [("ALL", getSubset field None)]
  end.

(** Lines 123-154: what is done with a frame that passed the filters. *)
Definition process_frame (frame_index : nat) (frame : OdbFrame) : M unit :=
  let current_time := frameValue frame in
  emit (EvFieldLookup frame_index) ;;
  match fieldOutputs frame !! field_variable with
  | None =>
      raise (SystemExit (field_not_stored field_variable frame_index step_name))
  | Some field =>
      for_each
        (λ '(region_name, subset),
           for_each (write_value frame_index current_time region_name) subset)
        (region_iter field)
  end.

Definition before_start (current_time : Q) : bool :=
  match start_time with
  | Some t => Qltb current_time t
  | None => false
  end.

Definition after_end (current_time : Q) : bool :=
  match end_time with
  | Some t => Qltb t current_time
  | None => false
  end.

(** Lines 114-154: [for frame_index, frame in enumerate(step.frames)]. *)
Fixpoint for_frames (frame_index : nat) (frames : list OdbFrame) : M unit :=
  match frames with
  | [] => ret tt
  | frame :: rest =>
      if negb (Z.of_nat frame_index mod frame_stride =? 0)%Z
      then for_frames (S frame_index) rest                     (* continue *)
      else
        let current_time := frameValue frame in
        if before_start current_time
        then for_frames (S frame_index) rest                   (* continue *)
        else if after_end current_time
        then ret tt                                            (* break *)
        else process_frame frame_index frame ;;
             for_frames (S frame_index) rest
  end.

End Loop.

(** Lines 155-158: the [finally] block. *)
Definition close_everything : M unit :=
  handles <- gets writer_handles ;;
  for_each (λ '(_, handle), close handle) handles ;;
  emit EvCloseOdb.

(** Lines 60-158.  [odb] is the archive stored at [odb_path]. *)
Definition export_temperatures (odb : Odb)
    (odb_path output_csv step_name : string)
    (node_sets : option (list string)) (field_variable : string)
    (start_time end_time : option Q) (frame_stride : Z)
    (split_by_node_set : bool) : M unit :=
  if (frame_stride <? 1)%Z
  then raise (ValueError "frame_stride must be >= 1")
  else
    emit (EvOpenOdb odb_path) ;;
    let root_assembly := rootAssembly odb in
    match steps odb !! step_name with
    | None =>
        let available := join ", " (sorted_keys (steps odb)) in
        raise (SystemExit (step_not_found step_name odb_path available))
    | Some step =>
        regions <-
          match node_sets with
          | Some (n :: ns) =>
              resolved <- _resolve_node_sets root_assembly (n :: ns) ;;
              ret (Some resolved)
          | _ => ret None
          end ;;
        let coord_cache := _build_coordinate_cache (instances root_assembly) in
        let header := header_row field_variable in
        try_finally
          (get_writer <-
             (if split_by_node_set
              then
                let '(base, ext) := splitext output_csv in
                let ext := if String.eqb ext "" then ".csv" else ext in
                ret (get_writer_split base ext header)
              else
                handle <- _open_writer output_csv header ;;
                register_writer "__all__" handle ;;
                ret (λ _ : string, ret handle)) ;;
           for_frames field_variable step_name start_time end_time
                      frame_stride regions coord_cache get_writer
                      0 (frames step))
          close_everything
    end.

End Platform.

(** ** Observations on a run *)

(** The frames that reached line 123, in order. *)
Definition processed_frames (evs : list Event) : list nat :=
  flat_map (λ e, match e with EvFieldLookup i => [i] | _ => [] end) evs.

(** The data rows handed to [writerow], in order, over all sinks. *)
Definition data_rows (evs : list Event) : list (list Cell) :=
  flat_map (λ e, match e with EvWrite _ (DataLine cells) => [cells] | _ => [] end)
           evs.

(** The files opened for writing, in order. *)
Definition opened (evs : list Event) : list (nat * string) :=
  flat_map (λ e, match e with EvOpen h path => [(h, path)] | _ => [] end) evs.

Definition row_frame (cells : list Cell) : option Z :=
  match cells with
  | CInt i :: _ => Some i
  | _ => None
  end.

Definition row_region (cells : list Cell) : option string :=
  match cells with
  | _ :: _ :: CStr region :: _ => Some region
  | _ => None
  end.

(** The file system as the events leave it: a file is the list of the lines
    written to it.  Opening for writing truncates.  Lines reach the file in
    program order.  This is what the file holds after its handle is closed
    as long as every path is open on one handle at a time; with two handles
    on one path the content depends on the buffers and on the byte offset of
    each handle, which are not modelled, and [fs_run] says nothing about
    such a path. *)
Record FileSystem := mkFS {
  files : gmap string (list Line);
  descriptors : gmap nat string
}.

Definition fs_step (fs : FileSystem) (e : Event) : FileSystem :=
  match e with
  | EvOpen h path =>
      mkFS (<[path := []]> (files fs)) (<[h := path]> (descriptors fs))
  | EvWrite h line =>
      match descriptors fs !! h with
      | Some path =>
          mkFS (<[path := default [] (files fs !! path) ++ [line]]> (files fs))
               (descriptors fs)
      | None => fs
      end
  | EvClose h => mkFS (files fs) (delete h (descriptors fs))
  | _ => fs
  end.

Definition fs_run (fs : FileSystem) (evs : list Event) : FileSystem :=
  foldl fs_step fs evs.

(** ** The filters and the work of a run, as the specification words them *)

Fixpoint enumerate_from {A} (i : nat) (l : list A) : list (nat * A) :=
  match l with
  | [] => []
  | x :: rest => (i, x) :: enumerate_from (S i) rest
  end.

Definition stride_ok (frame_stride : Z) (i : nat) : bool :=
  (Z.of_nat i mod frame_stride =? 0)%Z.

(** [start_time <= t] and [t <= end_time], each bound only when set. *)
Definition in_window (start_time end_time : option Q) (t : Q) : bool :=
  match start_time with Some a => Qle_bool a t | None => true end
  && match end_time with Some b => Qle_bool t b | None => true end.

Definition passes (frame_stride : Z) (start_time end_time : option Q)
    (entry : nat * OdbFrame) : bool :=
  stride_ok frame_stride entry.1
  && in_window start_time end_time (frameValue entry.2).

(** The frames of the step that satisfy both filters, with their indices. *)
Definition passing_frames (frame_stride : Z) (start_time end_time : option Q)
    (frames : list OdbFrame) : list (nat * OdbFrame) :=
  List.filter (passes frame_stride start_time end_time) (enumerate_from 0 frames).

(** Frame times never decrease along the step. *)
Definition time_ordered (frames : list OdbFrame) : Prop :=
  ∀ (i j : nat) f g,
    frames !! i = Some f → frames !! j = Some g → (i <= j)%nat →
    (frameValue f <= frameValue g)%Q.

(** The node sets a request resolves to, in request order. *)
Definition resolved_sets (root_assembly : OdbAssembly) (names : list string)
  : list OdbSet :=
  omap (λ set_name, nodeSets root_assembly !! set_name) names.

Definition regions_for (root_assembly : OdbAssembly)
    (node_sets : option (list string)) : option (list OdbSet) :=
  match node_sets with
  | Some (n :: ns) => Some (resolved_sets root_assembly (n :: ns))
  | _ => None
  end.

Definition all_sets_exist (root_assembly : OdbAssembly)
    (node_sets : option (list string)) : Prop :=
  ∀ names set_name, node_sets = Some names → In set_name names →
                    is_Some (nodeSets root_assembly !! set_name).

(** One unit of output: frame index, frame time, region name, value. *)
Definition Item : Type := nat * Q * string * FieldValue.

Definition frame_items (regions : option (list OdbSet)) (i : nat)
    (frame : OdbFrame) (field : FieldOutput) : list Item :=
  flat_map (λ '(region_name, subset),
              map (λ value, (i, frameValue frame, region_name, value)) subset)
           (region_iter regions field).

(** Every value of the field, per region, of every given frame. *)
Definition work_items (field_variable : string) (regions : option (list OdbSet))
    (selection : list (nat * OdbFrame)) : list Item :=
  flat_map (λ '(i, frame),
              match fieldOutputs frame !! field_variable with
              | Some field => frame_items regions i frame field
              | None => []
              end)
           selection.

(** The region names of a frame, in the order [region_iter] yields them. *)
Definition region_names (regions : option (list OdbSet)) : list string :=
  match regions with
  | Some (node_set :: others) => map node_set_name (node_set :: others)
  | _ => ["ALL"]
  end.

(** Output order: by frame index, then by position of the region name. *)
Definition in_output_order (names : list string)
    (i1 : nat) (region1 : string) (i2 : nat) (region2 : string) : Prop :=
  (i1 < i2)%nat
  ∨ (i1 = i2
     ∧ ∃ p1 p2 : nat, (p1 <= p2)%nat
                      ∧ names !! p1 = Some region1
                      ∧ names !! p2 = Some region2).

Definition item_order (names : list string) (a b : Item) : Prop :=
  in_output_order names a.1.1.1 a.1.2 b.1.1.1 b.1.2.

Definition has_coordinates (coord_cache : gmap string (gmap Z Coordinates))
    (item : Item) : Prop :=
  ∃ coords,
    lookup_coords coord_cache (name (instance item.2)) (nodeLabel item.2)
    = Ok coords.

(** The row the specification prescribes for an item. *)
Definition row_matches (coord_cache : gmap string (gmap Z Coordinates))
    (cells : list Cell) (item : Item) : Prop :=
  let '(i, t, region_name, value) := item in
  ∃ x y z,
    lookup_coords coord_cache (name (instance value)) (nodeLabel value)
    = Ok (x, y, z)
    ∧ cells = [CInt (Z.of_nat i); CFloat t; CStr region_name;
               CStr (name (instance value)); CInt (nodeLabel value);
               CFloat x; CFloat y; CFloat z; CFloat (data value)].

(** How the run is framed around the loop: the writer in force, the events
    and state before the loop, the events of the [finally] block. *)
Definition output_extension (ext : string) : string :=
  if String.eqb ext "" then ".csv" else ext.

Definition writer_setup (os_sep : ascii) (os_altsep : option ascii)
    (split_by_node_set : bool) (output_csv : string) (header : list string)
  : list Event * State * (string → M nat) :=
  if split_by_node_set
  then ([], initial_state,
        get_writer_split os_sep (splitext os_sep os_altsep output_csv).1
          (output_extension (splitext os_sep os_altsep output_csv).2) header)
  else ([EvOpen 0 output_csv; EvWrite 0 (HeaderLine header)],
        mkState [("__all__", 0)] 1,
        λ _, ret 0).

Definition closing_events (s : State) : list Event :=
  map (λ entry : string * nat, EvClose entry.2) (writer_handles s)
  ++ [EvCloseOdb].

(** A writer lookup that always succeeds and neither writes a data row nor
    touches a frame. *)
Definition quiet_writer (get_writer : string → M nat) : Prop :=
  ∀ region_name s, ∃ evs s' h,
    get_writer region_name s = (evs, s', Ok h)
    ∧ data_rows evs = [] ∧ processed_frames evs = [].

(** ** The loop, flattened

    The control flow of [for_frames] as a selection of frames, and the work
    on the selected frames as a list of elementary actions. *)

Section Selection.

Variables start_time end_time : option Q.
Variable frame_stride : Z.

Fixpoint selected_frames (frame_index : nat) (frames : list OdbFrame)
  : list (nat * OdbFrame) :=
  match frames with
  | [] => []
  | frame :: rest =>
      if negb (Z.of_nat frame_index mod frame_stride =? 0)%Z
      then selected_frames (S frame_index) rest
      else if before_start start_time (frameValue frame)
      then selected_frames (S frame_index) rest
      else if after_end end_time (frameValue frame)
      then []
      else (frame_index, frame) :: selected_frames (S frame_index) rest
  end.

End Selection.

Inductive Action :=
| AField (frame_index : nat) (stored : bool)
| AValue (item : Item).

Section Actions.

Variable field_variable : string.
Variable step_name : string.
Variable regions : option (list OdbSet).
Variable coord_cache : gmap string (gmap Z Coordinates).
Variable get_writer : string → M nat.

Definition do_action (a : Action) : M unit :=
  match a with
  | AField i true => emit (EvFieldLookup i)
  | AField i false =>
      emit (EvFieldLookup i) ;;
      raise (SystemExit (field_not_stored field_variable i step_name))
  | AValue (i, t, region_name, value) =>
      write_value coord_cache get_writer i t region_name value
  end.

Definition frame_actions (entry : nat * OdbFrame) : list Action :=
  match fieldOutputs entry.2 !! field_variable with
  | None => [AField entry.1 false]
  | Some field =>
      AField entry.1 true
      :: map AValue (frame_items regions entry.1 entry.2 field)
  end.

(** The exception an action raises, if any. *)
Definition fault (a : Action) : option exn :=
  match a with
  | AField _ true => None
  | AField i false =>
      Some (SystemExit (field_not_stored field_variable i step_name))
  | AValue item =>
      match lookup_coords coord_cache (name (instance item.2))
                          (nodeLabel item.2) with
      | Ok _ => None
      | Raise e => Some e
      end
  end.

Definition action_rows (a : Action) : list (list Cell) :=
  match a with
  | AField _ _ => []
  | AValue (i, t, region_name, value) =>
      match lookup_coords coord_cache (name (instance value))
                          (nodeLabel value) with
      | Ok coords =>
          [[CInt (Z.of_nat i); CFloat t; CStr region_name;
            CStr (name (instance value)); CInt (nodeLabel value);
            CFloat coords.1.1; CFloat coords.1.2; CFloat coords.2;
            CFloat (data value)]]
      | Raise _ => []
      end
  end.

Definition action_frames (a : Action) : list nat :=
  match a with
  | AField i _ => [i]
  | AValue _ => []
  end.

Fixpoint outcome (acts : list Action) : result unit :=
  match acts with
  | [] => Ok tt
  | a :: rest =>
      match fault a with
      | Some e => Raise e
      | None => outcome rest
      end
  end.

Fixpoint rows_of (acts : list Action) : list (list Cell) :=
  match acts with
  | [] => []
  | a :: rest =>
      match fault a with
      | Some _ => []
      | None => action_rows a ++ rows_of rest
      end
  end.

Fixpoint frames_of (acts : list Action) : list nat :=
  match acts with
  | [] => []
  | a :: rest =>
      action_frames a
      ++ match fault a with
         | Some _ => []
         | None => frames_of rest
         end
  end.

End Actions.

(** ** Sample archives

    A one-part model with two nodes and the node sets A and B, used to run
    the program on concrete inputs. *)

Definition part1 : OdbInstance :=
  mkInstance "PART-1" [mkNode 7 (1, 2, 3)%Q; mkNode 8 (0, 0, 0)%Q].

Definition value7 : FieldValue := mkValue part1 7 (701 # 2).
Definition value8 : FieldValue := mkValue part1 8 (300 # 1).

Definition member (node_set : OdbSet) (value : FieldValue) : bool :=
  existsb (λ '(instance_name, node_label),
             String.eqb instance_name (name (instance value))
             && (node_label =? nodeLabel value)%Z)
          (node_set_nodes node_set).

(** A field whose subsets are its values on the nodes of the region. *)
Definition field_on (values : list FieldValue) : FieldOutput :=
  mkField (λ region,
             match region with
             | None => values
             | Some node_set => List.filter (member node_set) values
             end).

Definition frame_at (t : Q) : OdbFrame :=
  mkFrame t {[ "NT11" := field_on [value7; value8] ]}.

Definition sample_assembly : OdbAssembly :=
  mkAssembly [part1]
    (<["A" := mkSet "A" [("PART-1", 7%Z)]]>
       {[ "B" := mkSet "B" [("PART-1", 8%Z)] ]}).

Definition ten_frames : OdbStep :=
  mkStep (map (λ n, frame_at (inject_Z n)) [0; 1; 2; 3; 4; 5; 6; 7; 8; 9]%Z).

(** Four frames a tenth of a second apart. *)
Definition tenths : OdbStep :=
  mkStep (map (λ n, frame_at (n # 10)) [0; 1; 2; 3]%Z).

(** A step whose second frame does not store the field. *)
Definition gap_step : OdbStep :=
  mkStep [frame_at 0; mkFrame 1 ∅; frame_at 2].

(** A step whose field has a value on a node the instance does not have. *)
Definition stray_value : FieldValue := mkValue part1 9 (1 # 1).

Definition stray_step : OdbStep :=
  mkStep [mkFrame 0 {[ "NT11" := field_on [value7; stray_value; value8] ]};
          frame_at 1].

Definition sample_odb : Odb :=
  mkOdb (<["HeatStep" := ten_frames]>
           (<["Tenths" := tenths]>
              (<["Gap" := gap_step]> {[ "Stray" := stray_step ]})))
        sample_assembly.

(** An archive with two node sets whose names differ by a space against an
    underscore. *)
Definition colliding_odb : Odb :=
  mkOdb {[ "HeatStep" := mkStep [frame_at 0] ]}
        (mkAssembly [part1]
           (<["A B" := mkSet "A B" [("PART-1", 7%Z)]]>
              {[ "A_B" := mkSet "A_B" [("PART-1", 8%Z)] ]})).

Definition empty_fs : FileSystem := mkFS ∅ ∅.

Definition has_coordinatesb (coord_cache : gmap string (gmap Z Coordinates))
    (item : Item) : bool :=
  match lookup_coords coord_cache (name (instance item.2))
                      (nodeLabel item.2) with
  | Ok _ => true
  | Raise _ => false
  end.

Definition stores_field (field_variable : string) (entry : nat * OdbFrame)
  : bool :=
  match fieldOutputs entry.2 !! field_variable with
  | Some _ => true
  | None => false
  end.

(** Adjacent times never decrease. *)
Fixpoint nondecreasing (ts : list Q) : bool :=
  match ts with
  | a :: rest =>
      match rest with
      | b :: _ => Qle_bool a b
      | [] => true
      end && nondecreasing rest
  | [] => true
  end.

(** ** Files of a run *)

(** The rows of one region, in the order they were written. *)
Definition rows_of_region (region : string) (rows : list (list Cell))
  : list (list Cell) :=
  List.filter (λ cells, match row_region cells with
                        | Some r => String.eqb r region
                        | None => false
                        end) rows.

(** The sinks of the split mode against the file system, after the rows
    [prev] were written: a registered region has an open descriptor on its
    path and its file holds the header and its rows; a region without a
    sink has no row; a path that is no sink's path is as it was in [orig]. *)
Definition sinks_consistent (os_sep : ascii) (base ext : string)
    (header : list string) (names : list string)
    (orig : gmap string (list Line)) (s : State) (fs : FileSystem)
    (prev : list (list Cell)) : Prop :=
  (∀ R h, dict_get R (writer_handles s) = Some h →
          (h < next_handle s)%nat
          ∧ In R names
          ∧ descriptors fs !! h = Some (split_path os_sep base ext R)
          ∧ rows_of_region R prev ≠ []
          ∧ files fs !! split_path os_sep base ext R
            = Some (HeaderLine header :: map DataLine (rows_of_region R prev)))
  ∧ (∀ R, dict_get R (writer_handles s) = None → rows_of_region R prev = [])
  ∧ (∀ p, (∀ R, is_Some (dict_get R (writer_handles s)) →
                p ≠ split_path os_sep base ext R) →
          files fs !! p = orig !! p).

(** The region an action writes a row for belongs to [names]. *)
Definition action_region_in (names : list string) (a : Action) : Prop :=
  match a with
  | AField _ _ => True
  | AValue item => In item.1.2 names
  end.

(** ** The frames the loop reaches and the rows it owes

    Stated without the loop: the frames before the first one that ends the
    extraction, filtered by stride and window; the regions of a request; the
    values to export. *)

(** A frame at which the extraction of the step ends: its index is a
    multiple of the stride, its time is not below [start_time] and it
    exceeds [end_time]. *)
Definition ends_extraction (frame_stride : Z) (start_time end_time : option Q)
    (entry : nat * OdbFrame) : bool :=
  stride_ok frame_stride entry.1
  && match start_time with
     | Some a => Qle_bool a (frameValue entry.2)
     | None => true
     end
  && match end_time with
     | Some b => negb (Qle_bool (frameValue entry.2) b)
     | None => false
     end.

(** The elements before the first one that satisfies [p]. *)
Fixpoint before_first {A} (p : A → bool) (l : list A) : list A :=
  match l with
  | [] => []
  | x :: rest => if p x then [] else x :: before_first p rest
  end.

(** The frames that satisfy both filters and come before every frame that
    ends the extraction. *)
Definition reached_frames (frame_stride : Z) (start_time end_time : option Q)
    (frames : list OdbFrame) : list (nat * OdbFrame) :=
  List.filter (passes frame_stride start_time end_time)
    (before_first (ends_extraction frame_stride start_time end_time)
                  (enumerate_from 0 frames)).

(** The regions of a frame: one per requested name, in request order, named
    after the node set the catalog holds under that name and restricted to
    it; the whole field under the name ALL when nothing is requested. *)
Definition requested_regions (root_assembly : OdbAssembly)
    (node_sets : option (list string)) (field : FieldOutput)
  : list (string * list FieldValue) :=
  match node_sets with
  | Some (n :: ns) =>
      omap (λ set_name,
              match nodeSets root_assembly !! set_name with
              | Some node_set =>
                  Some (node_set_name node_set, getSubset field (Some node_set))
              | None => None
              end)
           (n :: ns)
  | _ => [("ALL", getSubset field None)]
  end.

(** The values to export from the given frames: frame by frame, region by
    region, value by value. *)
Definition expected_items (root_assembly : OdbAssembly)
    (node_sets : option (list string)) (field_variable : string)
    (selection : list (nat * OdbFrame)) : list Item :=
  flat_map (λ '(i, frame),
              match fieldOutputs frame !! field_variable with
              | Some field =>
                  flat_map (λ '(region_name, values),
                              map (λ value, (i, frameValue frame, region_name, value))
                                  values)
                           (requested_regions root_assembly node_sets field)
              | None => []
              end)
           selection.

(** A region name with every separator and every space turned into an
    underscore, character by character. *)
Fixpoint underscored (os_sep : ascii) (s : string) : string :=
  match s with
  | EmptyString => EmptyString
  | String c rest =>
      String (if Ascii.eqb c os_sep || Ascii.eqb c " " then "_"%char else c)
             (underscored os_sep rest)
  end.

(** Among the events [past], handle [h] was opened and received [header] as
    its first record. *)
Definition opened_with_header (header : list string) (past : list Event)
    (h : nat) : Prop :=
  ∃ before path after,
    past = before ++ EvOpen h path :: EvWrite h (HeaderLine header) :: after.

(** ** Archives with faults and with unordered times *)

(** Frame times 5, 1, 9, 2: the third frame lies beyond an end time of 6,
    the fourth one within it. *)
Definition unordered_step : OdbStep :=
  mkStep [frame_at 5; frame_at 1; frame_at 9; frame_at 2].

(** A frame without the field after a frame beyond an end time of 5. *)
Definition late_gap_step : OdbStep :=
  mkStep [frame_at 0; frame_at 9; mkFrame 1 ∅].

(** A frame without the field, followed by a frame with a value on a node
    the instance does not have.  The times are not ordered. *)
Definition gap_then_stray_step : OdbStep :=
  mkStep [frame_at 3; mkFrame 1 ∅;
          mkFrame 2 {[ "NT11" := field_on [stray_value] ]}].

(** A value on a node the instance does not have, followed by a frame
    without the field.  The times are not ordered. *)
Definition stray_then_gap_step : OdbStep :=
  mkStep [frame_at 3;
          mkFrame 1 {[ "NT11" := field_on [value7; stray_value; value8] ]};
          mkFrame 2 ∅].

Definition faulty_odb : Odb :=
  mkOdb (<["Unordered" := unordered_step]>
           (<["LateGap" := late_gap_step]>
              (<["GapThenStray" := gap_then_stray_step]>
                 {[ "StrayThenGap" := stray_then_gap_step ]})))
        sample_assembly.


(** * Properties *)

(** ** The monad *)

Lemma bind_ext {A B} (m : M A) (k1 k2 : A → M B) s :
  (∀ a s', k1 a s' = k2 a s') → bind m k1 s = bind m k2 s.
Proof.
  intros H. unfold bind. destruct (m s) as [[ev1 s1] [a|e]]; [|done].
  by rewrite H.
Qed.

Lemma bind_assoc {A B C} (m : M A) (k : A → M B) (k' : B → M C) s :
  bind (bind m k) k' s = bind m (λ a, bind (k a) k') s.
Proof.
  unfold bind. destruct (m s) as [[ev1 s1] [a|e]]; [|done].
  destruct (k a s1) as [[ev2 s2] [b|e]]; [|done].
  destruct (k' b s2) as [[ev3 s3] r]. by rewrite app_assoc.
Qed.

Lemma bind_ret_r (m : M unit) s : bind m (λ _, ret tt) s = m s.
Proof.
  unfold bind, ret. destruct (m s) as [[ev1 s1] [[]|e]]; [|done].
  by rewrite app_nil_r.
Qed.

Lemma for_each_ext {A} (f g : A → M unit) l s :
  (∀ x s', f x s' = g x s') → for_each f l s = for_each g l s.
Proof.
  intros H. revert s. induction l as [|x l IH]; intros s; simpl; [done|].
  unfold bind. rewrite H. destruct (g x s) as [[ev1 s1] [a|e]]; [|done].
  by rewrite IH.
Qed.

Lemma for_each_app {A} (body : A → M unit) l1 l2 s :
  for_each body (l1 ++ l2) s
  = bind (for_each body l1) (λ _, for_each body l2) s.
Proof.
  revert s. induction l1 as [|x l1 IH]; intros s; simpl.
  - unfold bind, ret. by destruct (for_each body l2 s) as [[ev s'] r].
  - rewrite bind_assoc. by apply bind_ext.
Qed.

Lemma for_each_map {A B} (f : A → B) (body : B → M unit) l s :
  for_each body (map f l) s = for_each (λ x, body (f x)) l s.
Proof.
  revert s. induction l as [|x l IH]; intros s; simpl; [done|].
  by apply bind_ext.
Qed.

Lemma for_each_flat_map {A B} (g : A → list B) (body : B → M unit) l s :
  for_each body (flat_map g l) s = for_each (λ x, for_each body (g x)) l s.
Proof.
  revert s. induction l as [|x l IH]; intros s; simpl; [done|].
  rewrite for_each_app. by apply bind_ext.
Qed.

(** ** Projections of a trace *)

Lemma processed_frames_app e1 e2 :
  processed_frames (e1 ++ e2) = processed_frames e1 ++ processed_frames e2.
Proof. apply flat_map_app. Qed.

Lemma data_rows_app e1 e2 : data_rows (e1 ++ e2) = data_rows e1 ++ data_rows e2.
Proof. apply flat_map_app. Qed.

Lemma opened_app e1 e2 : opened (e1 ++ e2) = opened e1 ++ opened e2.
Proof. apply flat_map_app. Qed.

(** ** The loop is the list of actions of the selected frames *)

Section LoopFlattening.

Variable field_variable : string.
Variable step_name : string.
Variables start_time end_time : option Q.
Variable frame_stride : Z.
Variable regions : option (list OdbSet).
Variable coord_cache : gmap string (gmap Z Coordinates).
Variable get_writer : string → M nat.

Local Notation "'process'" :=
  (process_frame field_variable step_name regions coord_cache get_writer).
Local Notation "'loop'" :=
  (for_frames field_variable step_name start_time end_time frame_stride
              regions coord_cache get_writer).
Local Notation "'selected'" := (selected_frames start_time end_time frame_stride).
Local Notation "'act'" := (do_action field_variable step_name coord_cache get_writer).
Local Notation "'actions'" := (frame_actions field_variable regions).

Lemma for_frames_selected i frames s :
  loop i frames s = for_each (λ entry, process entry.1 entry.2) (selected i frames) s.
Proof.
  revert i s. induction frames as [|frame rest IH]; intros i s; simpl; [done|].
  destruct (negb _); [apply IH|].
  destruct (before_start _ _); [apply IH|].
  destruct (after_end _ _); [done|].
  simpl. by apply bind_ext.
Qed.

Lemma process_frame_actions entry s :
  process entry.1 entry.2 s = for_each act (actions entry) s.
Proof.
  destruct entry as [i frame]. unfold process_frame, frame_actions. simpl.
  destruct (fieldOutputs frame !! field_variable) as [field|]; simpl.
  - apply bind_ext. intros _ s'. unfold frame_items.
    rewrite for_each_map, for_each_flat_map.
    apply for_each_ext. intros [region_name subset] s''.
    by rewrite for_each_map.
  - by rewrite bind_ret_r.
Qed.

Lemma for_frames_actions i frames s :
  loop i frames s = for_each act (flat_map actions (selected i frames)) s.
Proof.
  rewrite for_frames_selected, for_each_flat_map.
  apply for_each_ext. intros entry s'. apply process_frame_actions.
Qed.

Hypothesis writer_quiet : quiet_writer get_writer.

Local Notation "'outcome_of'" := (outcome field_variable step_name coord_cache).
Local Notation "'rows'" := (rows_of field_variable step_name coord_cache).
Local Notation "'touched'" := (frames_of field_variable step_name coord_cache).

Lemma actions_summary acts s :
  ∃ evs s',
    for_each act acts s = (evs, s', outcome_of acts)
    ∧ data_rows evs = rows acts
    ∧ processed_frames evs = touched acts.
Proof.
  revert s. induction acts as [|a acts IH]; intros s; simpl.
  - by exists [], s.
  - destruct a as [i [|]|[[[i t] region_name] value]]; simpl.
    + unfold bind, emit.
      destruct (IH s) as (evs & s' & -> & Hrows & Hframes).
      exists (EvFieldLookup i :: evs), s'. simpl.
      rewrite Hrows. split_and!; [done..|]. by f_equal.
    + exists [EvFieldLookup i], s. by unfold bind, emit, raise.
    + unfold write_value, bind, lift.
      destruct (lookup_coords _ _ _) as [coords|e]; simpl.
      * destruct (writer_quiet region_name s) as (ev1 & s1 & h & -> & Hr1 & Hf1).
        destruct (IH s1) as (evs & s' & -> & Hrows & Hframes).
        unfold writerow, emit. simpl. eexists _, _. split; [done|].
        rewrite !data_rows_app, !processed_frames_app, Hr1, Hf1.
        simpl. by rewrite Hrows, Hframes.
      * by exists [], s.
Qed.

End LoopFlattening.

(** ** The run around the loop *)

Lemma resolve_all_present root_assembly names s :
  (∀ set_name, In set_name names →
               is_Some (nodeSets root_assembly !! set_name)) →
  _resolve_node_sets root_assembly names s
  = ([], s, Ok (resolved_sets root_assembly names)).
Proof.
  induction names as [|n names IH]; intros Hall; simpl; [done|].
  destruct (Hall n) as [node_set Hn]; [by left|].
  unfold resolved_sets. simpl. rewrite Hn. simpl.
  unfold bind. rewrite IH by (intros; apply Hall; by right). done.
Qed.

Lemma resolve_some_absent root_assembly names s :
  (∃ set_name, In set_name names ∧ nodeSets root_assembly !! set_name = None) →
  ∃ bad, In bad names ∧ nodeSets root_assembly !! bad = None
         ∧ _resolve_node_sets root_assembly names s
           = ([], s, Raise (SystemExit
                 (node_set_not_found bad
                    (join ", " (sorted_keys (nodeSets root_assembly)))))).
Proof.
  induction names as [|n names IH]; intros (bad & Hin & Hbad); [done|].
  simpl. destruct (nodeSets root_assembly !! n) as [node_set|] eqn:Hn.
  - destruct Hin as [->|Hin]; [congruence|].
    destruct IH as (bad' & Hin' & Hbad' & Heq); [by exists bad|].
    exists bad'. split_and!; [by right|done|].
    unfold bind. by rewrite Heq.
  - exists n. split_and!; [by left|done..].
Qed.

Lemma close_everything_run s :
  close_everything s = (closing_events s, s, Ok tt).
Proof.
  assert (∀ handles,
    for_each (λ '(_, handle), close handle) handles s
    = (map (λ entry : string * nat, EvClose entry.2) handles, s, Ok tt)) as H.
  { induction handles as [|[k h] handles IH]; cbn [for_each]; [done|].
    unfold bind. change (close h s) with ([EvClose h], s, Ok tt).
    cbv beta iota. by rewrite IH. }
  unfold close_everything, closing_events, bind, gets. by rewrite H.
Qed.

Lemma closing_events_quiet s :
  data_rows (closing_events s) = [] ∧ processed_frames (closing_events s) = []
  ∧ opened (closing_events s) = [].
Proof.
  unfold closing_events.
  rewrite data_rows_app, processed_frames_app, opened_app. simpl.
  induction (writer_handles s) as [|[k h] l IH]; simpl; [done|].
  by rewrite !app_nil_r in *.
Qed.

Section Run.

Variable os_sep : ascii.
Variable os_altsep : option ascii.
Variable odb : Odb.
Variables odb_path output_csv step_name : string.
Variable node_sets : option (list string).
Variable field_variable : string.
Variables start_time end_time : option Q.
Variable frame_stride : Z.
Variable split_by_node_set : bool.
Variable step : OdbStep.

Hypothesis stride_positive : (1 <= frame_stride)%Z.
Hypothesis step_found : steps odb !! step_name = Some step.
Hypothesis sets_found : all_sets_exist (rootAssembly odb) node_sets.

Local Notation "'regions'" := (regions_for (rootAssembly odb) node_sets).
Local Notation "'cache'" :=
  (_build_coordinate_cache (instances (rootAssembly odb))).
Local Notation "'setup'" :=
  (writer_setup os_sep os_altsep split_by_node_set output_csv
                (header_row field_variable)).
Local Notation "'acts'" :=
  (flat_map (frame_actions field_variable regions)
            (selected_frames start_time end_time frame_stride 0 (frames step))).

Lemma export_run :
  export_temperatures os_sep os_altsep odb odb_path output_csv step_name
    node_sets field_variable start_time end_time frame_stride
    split_by_node_set initial_state
  = match for_each (do_action field_variable step_name cache setup.2)
                   acts setup.1.2 with
    | (evs, s1, r) =>
        (EvOpenOdb odb_path :: setup.1.1 ++ evs ++ closing_events s1, s1, r)
    end.
Proof.
  unfold export_temperatures.
  destruct (Z.ltb_spec frame_stride 1) as [?|_]; [lia|].
  unfold bind at 1. unfold emit at 1. rewrite step_found.
  assert (∀ s,
    match node_sets with
    | Some (n :: ns) =>
        resolved <- _resolve_node_sets (rootAssembly odb) (n :: ns) ;;
        ret (Some resolved)
    | _ => ret None
    end s = ([], s, Ok regions)) as Hregions.
  { intros s. unfold regions_for.
    destruct node_sets as [[|n ns]|] eqn:Hsets; try done.
    unfold bind. rewrite resolve_all_present; [done|].
    intros set_name Hin. by eapply sets_found. }
  unfold bind at 1. rewrite Hregions. unfold try_finally.
  unfold writer_setup.
  destruct split_by_node_set; simpl.
  - destruct (splitext os_sep os_altsep output_csv) as [base ext]. simpl.
    unfold bind at 1. unfold ret at 1. simpl.
    unfold output_extension.
    rewrite <- for_frames_actions.
    destruct (for_frames _ _ _ _ _ _ _ _ _ _ _) as [[evs s1] r].
    rewrite close_everything_run. done.
  - unfold bind at 1. unfold _open_writer, register_writer, open_file,
      writerow, emit, modify, bind, ret. simpl.
    rewrite <- for_frames_actions.
    destruct (for_frames _ _ _ _ _ _ _ _ _ _ _) as [[evs s1] r].
    rewrite close_everything_run. done.
Qed.

End Run.

(** ** Writers *)

Lemma dict_get_set {V} (k k' : string) (v : V) d :
  dict_get k (dict_set k' v d)
  = if String.eqb k k' then Some v else dict_get k d.
Proof.
  induction d as [|[k0 v0] d IH]; simpl.
  - done.
  - destruct (String.eqb_spec k' k0) as [->|Hne]; simpl.
    + by destruct (String.eqb_spec k k0).
    + rewrite IH. destruct (String.eqb_spec k k0) as [->|?]; [|done].
      destruct (String.eqb_spec k0 k') as [->|?]; done.
Qed.

Lemma get_writer_split_run os_sep base ext header set_name s :
  get_writer_split os_sep base ext header set_name s
  = match dict_get set_name (writer_handles s) with
    | Some writer => ([], s, Ok writer)
    | None =>
        ([EvOpen (next_handle s) (split_path os_sep base ext set_name);
          EvWrite (next_handle s) (HeaderLine header)],
         mkState (dict_set set_name (next_handle s) (writer_handles s))
                 (S (next_handle s)),
         Ok (next_handle s))
    end.
Proof.
  unfold get_writer_split, bind, gets.
  destruct (dict_get set_name (writer_handles s)) as [writer|] eqn:Hget.
  - unfold ret. simpl. by rewrite Hget.
  - unfold _open_writer, register_writer, open_file, writerow, emit, modify,
      bind, ret. simpl.
    by rewrite dict_get_set, String.eqb_refl.
Qed.

Lemma writer_setup_quiet os_sep os_altsep split_by_node_set output_csv header :
  quiet_writer
    (writer_setup os_sep os_altsep split_by_node_set output_csv header).2.
Proof.
  intros region_name s. unfold writer_setup.
  destruct split_by_node_set; simpl.
  - rewrite get_writer_split_run.
    destruct (dict_get _ _); eexists _, _, _; split; done.
  - by exists [], s, 0.
Qed.

Lemma writer_setup_events os_sep os_altsep split_by_node_set output_csv header :
  data_rows
    (writer_setup os_sep os_altsep split_by_node_set output_csv header).1.1 = []
  ∧ processed_frames
    (writer_setup os_sep os_altsep split_by_node_set output_csv header).1.1 = [].
Proof. unfold writer_setup. by destruct split_by_node_set. Qed.

(** What a run writes, touches and returns, read off the list of actions. *)
Lemma export_summary os_sep os_altsep odb odb_path output_csv step_name
    node_sets field_variable start_time end_time frame_stride
    split_by_node_set step :
  (1 <= frame_stride)%Z →
  steps odb !! step_name = Some step →
  all_sets_exist (rootAssembly odb) node_sets →
  let cache := _build_coordinate_cache (instances (rootAssembly odb)) in
  let acts :=
    flat_map (frame_actions field_variable
                (regions_for (rootAssembly odb) node_sets))
      (selected_frames start_time end_time frame_stride 0 (frames step)) in
  ∃ evs s',
    export_temperatures os_sep os_altsep odb odb_path output_csv step_name
      node_sets field_variable start_time end_time frame_stride
      split_by_node_set initial_state
    = (evs, s', outcome field_variable step_name cache acts)
    ∧ data_rows evs = rows_of field_variable step_name cache acts
    ∧ processed_frames evs = frames_of field_variable step_name cache acts.
Proof.
  intros Hstride Hstep Hsets cache acts.
  rewrite (export_run _ _ _ _ _ _ _ _ _ _ _ _ step) by done.
  pose proof (writer_setup_events os_sep os_altsep split_by_node_set
                output_csv (header_row field_variable)) as [Hs1 Hs2].
  destruct (actions_summary field_variable step_name cache _
              (writer_setup_quiet os_sep os_altsep split_by_node_set
                 output_csv (header_row field_variable))
              acts
              (writer_setup os_sep os_altsep split_by_node_set output_csv
                 (header_row field_variable)).1.2)
    as (evs & s1 & Hrun & Hrows & Hframes).
  fold cache acts. rewrite Hrun.
  destruct (closing_events_quiet s1) as (Hc1 & Hc2 & _).
  eexists _, _. split; [done|].
  split.
  - change (EvOpenOdb odb_path :: ?l) with ([EvOpenOdb odb_path] ++ l).
    rewrite !data_rows_app, Hs1, Hrows, Hc1. simpl. by rewrite app_nil_r.
  - change (EvOpenOdb odb_path :: ?l) with ([EvOpenOdb odb_path] ++ l).
    rewrite !processed_frames_app, Hs2, Hframes, Hc2. simpl.
    by rewrite app_nil_r.
Qed.

(** ** Lists of actions *)

Section ActionLists.

Variable field_variable : string.
Variable step_name : string.
Variable regions : option (list OdbSet).
Variable coord_cache : gmap string (gmap Z Coordinates).

Local Notation "'outcome_of'" := (outcome field_variable step_name coord_cache).
Local Notation "'rows'" := (rows_of field_variable step_name coord_cache).
Local Notation "'touched'" := (frames_of field_variable step_name coord_cache).
Local Notation "'actions'" := (frame_actions field_variable regions).

Lemma outcome_app l1 l2 :
  outcome_of (l1 ++ l2)
  = match outcome_of l1 with Ok _ => outcome_of l2 | Raise e => Raise e end.
Proof.
  induction l1 as [|a l1 IH]; simpl; [done|].
  by destruct (fault _ _ _ a).
Qed.

Lemma rows_of_app l1 l2 :
  rows (l1 ++ l2)
  = rows l1 ++ match outcome_of l1 with Ok _ => rows l2 | Raise _ => [] end.
Proof.
  induction l1 as [|a l1 IH]; simpl; [done|].
  destruct (fault _ _ _ a); [done|]. by rewrite IH, app_assoc.
Qed.

Lemma frames_of_app l1 l2 :
  touched (l1 ++ l2)
  = touched l1
    ++ match outcome_of l1 with Ok _ => touched l2 | Raise _ => [] end.
Proof.
  induction l1 as [|a l1 IH]; simpl; [done|].
  destruct (fault _ _ _ a); simpl.
  - by rewrite !app_nil_r.
  - by rewrite IH, app_assoc.
Qed.

Lemma frames_of_values items : touched (map AValue items) = [].
Proof.
  induction items as [|item items IH]; simpl; [done|].
  by destruct (lookup_coords _ _ _).
Qed.

Lemma frames_of_frame entry : touched (actions entry) = [entry.1].
Proof.
  unfold frame_actions.
  destruct (fieldOutputs entry.2 !! field_variable); simpl; [|done].
  by rewrite frames_of_values.
Qed.

(** The frames touched are a prefix of the selection, all of it when the
    run returns. *)
Lemma frames_of_selection selection :
  ∃ rest, map fst selection = touched (flat_map actions selection) ++ rest
          ∧ (outcome_of (flat_map actions selection) = Ok tt → rest = []).
Proof.
  induction selection as [|entry selection (rest & Heq & Hok)]; simpl.
  - by exists [].
  - rewrite frames_of_app, outcome_app, frames_of_frame. simpl.
    destruct (outcome_of (actions entry)).
    + exists rest. by rewrite Heq.
    + exists (map fst selection). by split.
Qed.

End ActionLists.

(** ** Selection under ordered frame times *)

Lemma Qltb_true a b : Qltb a b = true ↔ (a < b)%Q.
Proof.
  unfold Qltb. rewrite negb_true_iff. split.
  - intros H. apply Qnot_le_lt. rewrite <- Qle_bool_iff. by rewrite H.
  - intros H. destruct (Qle_bool b a) eqn:E; [|done].
    apply Qle_bool_iff in E. by apply Qlt_not_le in H.
Qed.

Lemma Qltb_false a b : Qltb a b = false ↔ (b <= a)%Q.
Proof.
  unfold Qltb. rewrite negb_false_iff. apply Qle_bool_iff.
Qed.

Lemma time_ordered_cons frame rest :
  time_ordered (frame :: rest) →
  time_ordered rest
  ∧ ∀ g, In g rest → (frameValue frame <= frameValue g)%Q.
Proof.
  intros H. split.
  - intros i j f g Hi Hj Hle. apply (H (S i) (S j)); [done..|lia].
  - intros g Hg. apply list_elem_of_In, list_elem_of_lookup in Hg as [j Hj].
    apply (H 0 (S j)); [done..|lia].
Qed.

Lemma passing_none k start_time end_time i frames :
  (∀ g, In g frames → in_window start_time end_time (frameValue g) = false) →
  List.filter (passes k start_time end_time) (enumerate_from i frames) = [].
Proof.
  revert i. induction frames as [|f frames IH]; intros i H; simpl; [done|].
  unfold passes at 1. simpl. rewrite (H f) by (by left).
  rewrite andb_false_r. apply IH. intros g Hg. apply H. by right.
Qed.

Lemma selected_passing_from k start_time end_time i frames :
  time_ordered frames →
  selected_frames start_time end_time k i frames
  = List.filter (passes k start_time end_time) (enumerate_from i frames).
Proof.
  revert i. induction frames as [|f frames IH]; intros i Hord; simpl; [done|].
  apply time_ordered_cons in Hord as [Hord Hlater].
  unfold passes at 1, stride_ok. simpl.
  destruct (Z.of_nat i mod k =? 0)%Z; simpl; [|by apply IH].
  unfold in_window, before_start, after_end.
  destruct start_time as [a|], end_time as [b|]; simpl.
  - destruct (Qltb (frameValue f) a) eqn:Ea.
    + apply negb_true_iff in Ea. rewrite Ea. simpl. by apply IH.
    + apply negb_false_iff in Ea. rewrite Ea. simpl.
      destruct (Qltb b (frameValue f)) eqn:Eb.
      * pose proof Eb as Eb'. apply negb_true_iff in Eb'. rewrite Eb'.
        symmetry. apply passing_none. intros g Hg. simpl.
        apply Qltb_true in Eb. apply andb_false_iff. right.
        destruct (Qle_bool (frameValue g) b) eqn:Eg; [|done].
        apply Qle_bool_iff in Eg. exfalso.
        apply (Qlt_not_le _ _ Eb). eapply Qle_trans; [|exact Eg].
        by apply Hlater.
      * apply negb_false_iff in Eb. rewrite Eb. f_equal. by apply IH.
  - destruct (Qltb (frameValue f) a) eqn:Ea.
    + apply negb_true_iff in Ea. rewrite Ea. simpl. by apply IH.
    + apply negb_false_iff in Ea. rewrite Ea. simpl. f_equal. by apply IH.
  - destruct (Qltb b (frameValue f)) eqn:Eb.
    + pose proof Eb as Eb'. apply negb_true_iff in Eb'. rewrite Eb'.
      symmetry. apply passing_none. intros g Hg. simpl.
      apply Qltb_true in Eb.
      destruct (Qle_bool (frameValue g) b) eqn:Eg; [|done].
      apply Qle_bool_iff in Eg. exfalso.
      apply (Qlt_not_le _ _ Eb). eapply Qle_trans; [|exact Eg].
      by apply Hlater.
    + apply negb_false_iff in Eb. rewrite Eb. f_equal. by apply IH.
  - f_equal. by apply IH.
Qed.

Lemma selected_passing k start_time end_time frames :
  time_ordered frames →
  selected_frames start_time end_time k 0 frames
  = passing_frames k start_time end_time frames.
Proof. apply selected_passing_from. Qed.

Lemma In_enumerate_from {A} i (l : list A) j x :
  In (j, x) (enumerate_from i l) ↔ (i <= j)%nat ∧ l !! (j - i)%nat = Some x.
Proof.
  revert i. induction l as [|y l IH]; intros i; simpl.
  - split; [done|]. by intros [_ ?].
  - rewrite IH. split.
    + intros [[= -> ->]|[Hle Hl]].
      * split; [lia|]. by rewrite Nat.sub_diag.
      * split; [lia|]. by replace (j - i)%nat with (S (j - S i)) by lia.
    + intros [Hle Hl]. destruct (decide (i = j)) as [->|Hne].
      * rewrite Nat.sub_diag in Hl. left. simpl in Hl. congruence.
      * right. split; [lia|].
        by replace (j - i)%nat with (S (j - S i)) in Hl by lia.
Qed.

Lemma in_window_spec start_time end_time t :
  in_window start_time end_time t = true
  ↔ (∀ a, start_time = Some a → (a <= t)%Q)
    ∧ (∀ b, end_time = Some b → (t <= b)%Q).
Proof.
  unfold in_window. rewrite andb_true_iff.
  destruct start_time as [a|], end_time as [b|]; rewrite ?Qle_bool_iff;
    split.
  all: try (intros [? ?]; split; intros ? [= <-]; done).
  all: try (intros [Ha Hb]; split; try done; auto).
  all: try (intros _; split; intros ? [=]).
Qed.

Lemma In_passing_frames k start_time end_time frames i :
  In i (map fst (passing_frames k start_time end_time frames))
  ↔ ∃ frame, frames !! i = Some frame
             ∧ (Z.of_nat i mod k = 0)%Z
             ∧ (∀ a, start_time = Some a → (a <= frameValue frame)%Q)
             ∧ (∀ b, end_time = Some b → (frameValue frame <= b)%Q).
Proof.
  unfold passing_frames. rewrite in_map_iff. split.
  - intros ([j frame] & <- & Hin). apply filter_In in Hin as [Hin Hpass].
    apply In_enumerate_from in Hin as [_ Hl]. rewrite Nat.sub_0_r in Hl.
    unfold passes, stride_ok in Hpass. simpl in *.
    apply andb_true_iff in Hpass as [Hs Hw].
    apply Z.eqb_eq in Hs. apply in_window_spec in Hw as [? ?].
    by exists frame.
  - intros (frame & Hl & Hs & Ha & Hb). exists (i, frame). split; [done|].
    apply filter_In. split.
    + apply In_enumerate_from. rewrite Nat.sub_0_r. split; [lia|done].
    + unfold passes, stride_ok. simpl. apply andb_true_iff. split.
      * by apply Z.eqb_eq.
      * by apply in_window_spec.
Qed.

Lemma nondecreasing_cons a ts :
  nondecreasing (a :: ts) = true →
  nondecreasing ts = true ∧ ∀ b, In b ts → (a <= b)%Q.
Proof.
  revert a. induction ts as [|b ts IH]; intros a H; [done|].
  change (Qle_bool a b && nondecreasing (b :: ts) = true) in H.
  apply andb_true_iff in H as [Hab Hts]. split; [done|].
  apply Qle_bool_iff in Hab. destruct (IH b Hts) as [_ Hb].
  intros c [<-|Hc]; [done|]. eapply Qle_trans; [done|]. by apply Hb.
Qed.

Lemma nondecreasing_time_ordered frames :
  nondecreasing (map frameValue frames) = true → time_ordered frames.
Proof.
  induction frames as [|f frames IH]; intros H i j x y Hi Hj Hle.
  - done.
  - simpl in H. apply nondecreasing_cons in H as [Hrest Hall].
    destruct i as [|i], j as [|j]; simpl in *; try lia.
    + injection Hi as <-. injection Hj as <-. apply Qle_refl.
    + injection Hi as <-. apply Hall, in_map.
      by eapply list_elem_of_In, list_elem_of_lookup_2.
    + apply (IH Hrest i j); [done..|lia].
Qed.

Lemma all_sets_exist_none root_assembly : all_sets_exist root_assembly None.
Proof. by intros names set_name. Qed.

Lemma all_sets_exist_check root_assembly names :
  forallb (λ n, bool_decide (is_Some (nodeSets root_assembly !! n))) names
  = true →
  all_sets_exist root_assembly (Some names).
Proof.
  intros H names' set_name [= <-] Hin.
  rewrite forallb_forall in H. specialize (H _ Hin).
  by apply bool_decide_eq_true in H.
Qed.

(** ** The coordinate cache *)

Lemma foldl_insert_other `{Countable K} {V A} (key : A → K) (val : A → V)
    (l : list A) (m : gmap K V) (k : K) :
  (∀ x, In x l → key x ≠ k) →
  foldl (λ m x, <[key x := val x]> m) m l !! k = m !! k.
Proof.
  revert m. induction l as [|x l IH]; intros m Hother; simpl; [done|].
  rewrite IH by (intros y Hy; apply Hother; by right).
  apply lookup_insert_ne, Hother. by left.
Qed.

(** X4.  The cache holds, for an instance name and a node label, the
    coordinates of the last node with that label of the last instance with
    that name; with unique names and labels, the coordinates of that node. *)
Theorem coordinate_cache_lookup instances before instance after
    nodes_before node nodes_after :
  instances = before ++ instance :: after →
  (∀ other, In other after → name other ≠ name instance) →
  nodes instance = nodes_before ++ node :: nodes_after →
  (∀ other, In other nodes_after → label other ≠ label node) →
  lookup_coords (_build_coordinate_cache instances) (name instance)
                (label node)
  = Ok (coordinates node).
Proof.
  intros -> Hnames Hnodes Hlabels.
  unfold lookup_coords, _build_coordinate_cache.
  rewrite foldl_app. simpl.
  rewrite (foldl_insert_other name (λ i, coord_map_of (nodes i))) by done.
  rewrite lookup_insert_eq.
  unfold coord_map_of. rewrite Hnodes, foldl_app. simpl.
  rewrite (foldl_insert_other label coordinates) by done.
  by rewrite lookup_insert_eq.
Qed.

(** ** Stride and time window *)

(** C1.  On a step whose frame times never decrease, with a stride of at
    least one and optional time bounds, the frames that reach field
    extraction are those whose raw index is a multiple of the stride and
    whose time lies within the bounds that are set: no other frame is ever
    processed, frames are processed in index order without gaps, and a run
    that returns has processed all of them. *)
Theorem processed_frames_stride_and_window
    os_sep os_altsep odb odb_path output_csv step_name node_sets
    field_variable start_time end_time frame_stride split_by_node_set
    step evs s' r :
  (1 <= frame_stride)%Z →
  steps odb !! step_name = Some step →
  all_sets_exist (rootAssembly odb) node_sets →
  time_ordered (frames step) →
  export_temperatures os_sep os_altsep odb odb_path output_csv step_name
    node_sets field_variable start_time end_time frame_stride
    split_by_node_set initial_state = (evs, s', r) →
  let wanted :=
    map fst (passing_frames frame_stride start_time end_time (frames step)) in
  (∀ i, In i wanted
        ↔ ∃ frame, frames step !! i = Some frame
                   ∧ (Z.of_nat i mod frame_stride = 0)%Z
                   ∧ (∀ a, start_time = Some a → (a <= frameValue frame)%Q)
                   ∧ (∀ b, end_time = Some b → (frameValue frame <= b)%Q))
  ∧ processed_frames evs `prefix_of` wanted
  ∧ (r = Ok tt → processed_frames evs = wanted).
Proof.
  intros Hstride Hstep Hsets Hord Hrun wanted.
  split; [intros i; apply In_passing_frames|].
  destruct (export_summary os_sep os_altsep odb odb_path output_csv step_name
              node_sets field_variable start_time end_time frame_stride
              split_by_node_set step Hstride Hstep Hsets)
    as (evs' & s'' & Hrun' & _ & Hframes).
  rewrite Hrun in Hrun'. injection Hrun' as <- <- ->.
  rewrite Hframes, selected_passing by done.
  destruct (frames_of_selection field_variable step_name
              (regions_for (rootAssembly odb) node_sets)
              (_build_coordinate_cache (instances (rootAssembly odb)))
              (passing_frames frame_stride start_time end_time (frames step)))
    as (rest & Heq & Hok).
  split.
  - exists rest. exact Heq.
  - intros Hr. unfold wanted. rewrite Heq, (Hok Hr). by rewrite app_nil_r.
Qed.

Lemma processed_frames_stride_and_window_witness :
  let run :=
    export_temperatures "/" None sample_odb "Job-4.odb" "out.csv" "HeatStep"
      None "NT11" (Some (2 # 1)) (Some (7 # 1)) 3 false initial_state in
  processed_frames run.1.1 = [3; 6]
  ∧ (processed_frames run.1.1
       `prefix_of` map fst (passing_frames 3 (Some (2 # 1)) (Some (7 # 1))
                              (frames ten_frames)))
  ∧ (run.2 = Ok tt →
     processed_frames run.1.1
     = map fst (passing_frames 3 (Some (2 # 1)) (Some (7 # 1))
                  (frames ten_frames))).
Proof.
  intros run. split; [by vm_compute|].
  apply (processed_frames_stride_and_window "/" None sample_odb "Job-4.odb"
           "out.csv" "HeatStep" None "NT11" (Some (2 # 1)) (Some (7 # 1)) 3
           false ten_frames run.1.1 run.1.2 run.2).
  - lia.
  - by vm_compute.
  - apply all_sets_exist_none.
  - apply nondecreasing_time_ordered. by vm_compute.
  - by vm_compute.
Defined.

(** ** The end of the window stops the loop *)

Lemma selected_empty_window a b k i frames :
  (b < a)%Q → selected_frames (Some a) (Some b) k i frames = [].
Proof.
  intros Hba. revert i. induction frames as [|f frames IH]; intros i; simpl.
  - done.
  - destruct (negb _); [apply IH|].
    destruct (Qltb (frameValue f) a) eqn:Ea; [apply IH|].
    apply Qltb_false in Ea.
    assert (Qltb b (frameValue f) = true) as ->; [|done].
    apply Qltb_true. by eapply Qlt_le_trans.
Qed.

Lemma selected_stops start_time b k i pre frame post :
  (b < frameValue frame)%Q →
  (Z.of_nat (i + length pre) mod k = 0)%Z →
  selected_frames start_time (Some b) k i (pre ++ frame :: post)
  = selected_frames start_time (Some b) k i pre.
Proof.
  intros Hb. revert i. induction pre as [|f pre IH]; intros i Hk; simpl.
  - rewrite Nat.add_0_r in Hk. rewrite Hk. simpl.
    destruct start_time as [a|]; simpl.
    + destruct (Qltb (frameValue frame) a) eqn:Ea.
      * apply selected_empty_window. apply Qltb_true in Ea.
        by eapply Qlt_trans.
      * by apply Qltb_true in Hb as ->.
    + by apply Qltb_true in Hb as ->.
  - simpl in Hk. rewrite <- Nat.add_succ_comm in Hk.
    destruct (negb _); [by apply IH|].
    destruct (before_start _ _); [by apply IH|].
    destruct (Qltb b _); [done|]. f_equal. by apply IH.
Qed.

(** C3.  With [end_time] set, a stride-qualifying frame whose time exceeds
    it ends the extraction of the step: the loop over the frames up to and
    beyond that frame does exactly what the loop over the frames before it
    does, whatever the later frames hold.  A frame whose time is below
    [start_time] is only skipped: the loop goes on with the next frame at
    the next index. *)
Theorem end_time_stops_start_time_skips
    field_variable step_name start_time end_time frame_stride regions
    coord_cache get_writer :
  (∀ b i pre frame post s,
     end_time = Some b →
     (b < frameValue frame)%Q →
     (Z.of_nat (i + length pre) mod frame_stride = 0)%Z →
     for_frames field_variable step_name start_time end_time frame_stride
       regions coord_cache get_writer i (pre ++ frame :: post) s
     = for_frames field_variable step_name start_time end_time frame_stride
         regions coord_cache get_writer i pre s)
  ∧ (∀ a i frame rest s,
       start_time = Some a →
       (frameValue frame < a)%Q →
       for_frames field_variable step_name start_time end_time frame_stride
         regions coord_cache get_writer i (frame :: rest) s
       = for_frames field_variable step_name start_time end_time frame_stride
           regions coord_cache get_writer (S i) rest s).
Proof.
  split.
  - intros b i pre frame post s -> Hb Hk.
    rewrite !for_frames_selected. by rewrite selected_stops.
  - intros a i frame rest s -> Ha. simpl.
    destruct (negb _); [done|].
    by apply Qltb_true in Ha as ->.
Qed.

(** ** Unknown node sets *)

Lemma insert_sorted_perm x l : Permutation (insert_sorted x l) (x :: l).
Proof.
  induction l as [|y l IH]; simpl; [done|].
  destruct (String.leb x y); [done|].
  rewrite IH. apply perm_swap.
Qed.

Lemma sorted_perm l : Permutation (sorted l) l.
Proof.
  induction l as [|x l IH]; simpl; [done|].
  rewrite insert_sorted_perm. by constructor.
Qed.

Lemma In_sorted_keys {V} (repository : gmap string V) k :
  In k (sorted_keys repository) ↔ is_Some (repository !! k).
Proof.
  unfold sorted_keys.
  rewrite <- list_elem_of_In, sorted_perm, list_elem_of_fmap. split.
  - intros ([k' v] & -> & Hin). apply elem_of_map_to_list in Hin. by exists v.
  - intros [v Hv]. exists (k, v). split; [done|].
    by apply elem_of_map_to_list.
Qed.

(** C6.  When a requested node set is missing from the catalog of the
    archive, the run raises without having consulted a frame, opened an
    output file or written a row; once the stride is valid and the step
    known, the only thing done is to open the archive, and the message
    names a missing requested set and lists the names of the catalog, all
    of them and only them. *)
Theorem unknown_node_set_fails_before_extraction
    os_sep os_altsep odb odb_path output_csv step_name names
    field_variable start_time end_time frame_stride split_by_node_set
    evs s' r :
  (∃ set_name, In set_name names
               ∧ nodeSets (rootAssembly odb) !! set_name = None) →
  export_temperatures os_sep os_altsep odb odb_path output_csv step_name
    (Some names) field_variable start_time end_time frame_stride
    split_by_node_set initial_state = (evs, s', r) →
  (processed_frames evs = [] ∧ data_rows evs = [] ∧ opened evs = []
   ∧ ∃ e, r = Raise e)
  ∧ ((1 <= frame_stride)%Z → is_Some (steps odb !! step_name) →
     ∃ bad available,
       In bad names
       ∧ nodeSets (rootAssembly odb) !! bad = None
       ∧ (∀ k, In k available ↔ is_Some (nodeSets (rootAssembly odb) !! k))
       ∧ evs = [EvOpenOdb odb_path]
       ∧ r = Raise (SystemExit
                      ("Node set '" +:+ bad
                       +:+ "' not found in the ODB. Available sets: "
                       +:+ join ", " available))).
Proof.
  intros Habsent. unfold export_temperatures.
  destruct (Z.ltb_spec frame_stride 1) as [Hlt|Hge].
  { intros [= <- <- <-]. split; [|lia]. split_and!; [done..|]. by eexists. }
  unfold bind at 1. unfold emit at 1.
  destruct (steps odb !! step_name) as [step|] eqn:Hstep.
  2: { intros [= <- <- <-]. split.
       - split_and!; [done..|]. by eexists.
       - by intros _ [? ?]. }
  destruct names as [|n ns]; [by destruct Habsent as (? & [] & _)|].
  unfold bind at 1. unfold bind at 1.
  destruct (resolve_some_absent (rootAssembly odb) (n :: ns) initial_state
              Habsent) as (bad & Hin & Hbad & ->).
  intros [= <- <- <-]. split.
  - split_and!; [done..|]. by eexists.
  - intros _ _. exists bad, (sorted_keys (nodeSets (rootAssembly odb))).
    split_and!; [done..|apply In_sorted_keys|done|done].
Qed.

(** ** Rows against work items *)

Section Rows.

Variable field_variable : string.
Variable step_name : string.
Variable regions : option (list OdbSet).
Variable coord_cache : gmap string (gmap Z Coordinates).

Local Notation "'outcome_of'" := (outcome field_variable step_name coord_cache).
Local Notation "'rows'" := (rows_of field_variable step_name coord_cache).
Local Notation "'touched'" := (frames_of field_variable step_name coord_cache).
Local Notation "'actions'" := (frame_actions field_variable regions).
Local Notation "'items_of'" := (work_items field_variable regions).
Local Notation "'coords'" :=
  (λ item : Item,
     lookup_coords coord_cache (name (instance item.2)) (nodeLabel item.2)).

Lemma row_matches_has_coordinates cells item :
  row_matches coord_cache cells item → has_coordinates coord_cache item.
Proof.
  destruct item as [[[i t] region_name] value].
  intros (x & y & z & H & _). by exists (x, y, z).
Qed.

(** The rows of a list of values are those of the values before the first
    one without coordinates. *)
Lemma value_actions_rows items :
  ∃ items1 items2,
    items = items1 ++ items2
    ∧ Forall2 (row_matches coord_cache) (rows (map AValue items)) items1
    ∧ match items2 with
      | [] => outcome_of (map AValue items) = Ok tt
      | bad :: _ =>
          ∃ e, coords bad = Raise e ∧ outcome_of (map AValue items) = Raise e
      end.
Proof.
  induction items as [|item items (items1 & items2 & -> & Hrows & Hout)].
  - by exists [], [].
  - destruct (coords item) as [[[x y] z]|e] eqn:Hc.
    + exists (item :: items1), items2.
      destruct item as [[[i t] region_name] value]. simpl in *.
      rewrite Hc. simpl. split_and!; [done| |done].
      constructor; [|done]. by exists x, y, z.
    + exists [], (item :: items1 ++ items2).
      destruct item as [[[i t] region_name] value]. simpl in *.
      rewrite Hc. split_and!; [done|constructor|]. by exists e.
Qed.

Lemma frame_without_field entry :
  fieldOutputs entry.2 !! field_variable = None →
  outcome_of (actions entry)
  = Raise (SystemExit (field_not_stored field_variable entry.1 step_name))
  ∧ rows (actions entry) = [].
Proof. intros H. unfold frame_actions. by rewrite H. Qed.

Lemma frame_with_field entry field :
  fieldOutputs entry.2 !! field_variable = Some field →
  outcome_of (actions entry)
  = outcome_of (map AValue (frame_items regions entry.1 entry.2 field))
  ∧ rows (actions entry)
    = rows (map AValue (frame_items regions entry.1 entry.2 field)).
Proof. intros H. unfold frame_actions. by rewrite H. Qed.

(** The rows of a run are those of a prefix of its work items: all of them
    when it returns; up to the first value without coordinates when every
    selected frame stores the field. *)
Lemma selection_rows selection :
  ∃ items1 items2,
    items_of selection = items1 ++ items2
    ∧ Forall2 (row_matches coord_cache)
              (rows (flat_map actions selection)) items1
    ∧ (outcome_of (flat_map actions selection) = Ok tt → items2 = [])
    ∧ ((∀ entry, In entry selection →
                 is_Some (fieldOutputs entry.2 !! field_variable)) →
       match items2 with
       | [] => outcome_of (flat_map actions selection) = Ok tt
       | bad :: _ =>
           ∃ e, coords bad = Raise e
                ∧ outcome_of (flat_map actions selection) = Raise e
       end).
Proof.
  induction selection
    as [|[i frame] selection (items1 & items2 & Hitems & Hrows & Hok & Hall)].
  - exists [], []. split_and!; [done|constructor|done|done].
  - simpl. rewrite rows_of_app, outcome_app.
    destruct (fieldOutputs frame !! field_variable) as [field|] eqn:Hfield.
    + destruct (frame_with_field (i, frame) field Hfield) as [-> ->]. simpl.
      destruct (value_actions_rows (frame_items regions i frame field))
        as (here1 & here2 & Hhere & Hrows' & Hout).
      destruct here2 as [|bad here2].
      * rewrite Hout. exists (here1 ++ items1), items2.
        rewrite app_nil_r in Hhere. rewrite Hhere in *.
        rewrite Hitems, app_assoc.
        split_and!; [done| |done|].
        -- by apply Forall2_app.
        -- intros Hfields. apply Hall. intros entry Hin.
           apply Hfields. by right.
      * destruct Hout as (e & Hbad & ->).
        exists here1, (bad :: here2 ++ items_of selection).
        rewrite Hhere in *. rewrite app_nil_r, <- app_assoc.
        split_and!; [done|done|done|]. intros _. by exists e.
    + destruct (frame_without_field (i, frame) Hfield) as [-> ->]. simpl.
      exists [], (items_of selection).
      split_and!; [done|constructor|done|].
      intros Hfields. destruct (Hfields (i, frame)) as [? ?]; [by left|].
      simpl in *. congruence.
Qed.

End Rows.

(** ** Errors during extraction *)

Lemma lookup_coords_raise coord_cache instance_name node_label e :
  lookup_coords coord_cache instance_name node_label = Raise e →
  e = KeyError (KStr instance_name) ∨ e = KeyError (KInt node_label).
Proof.
  unfold lookup_coords.
  destruct (coord_cache !! instance_name) as [coord_map|].
  - destruct (coord_map !! node_label); [done|]. intros [= <-]. by right.
  - intros [= <-]. by left.
Qed.

Lemma enumerate_from_bound {A} i (l : list A) entry :
  In entry (enumerate_from i l) → (i <= entry.1)%nat.
Proof.
  destruct entry as [j x]. intros H. by apply In_enumerate_from in H as [? _].
Qed.

Lemma sorted_split_before (before : list (nat * OdbFrame)) entry after e :
  StronglySorted lt (map fst (before ++ entry :: after)) →
  In e before → (e.1 < entry.1)%nat.
Proof.
  induction before as [|b before IH]; simpl; [done|].
  intros Hs [<-|Hin].
  - apply StronglySorted_inv in Hs as [_ Hall].
    rewrite List.Forall_forall in Hall. apply Hall.
    rewrite map_app. apply in_or_app. right. by left.
  - apply StronglySorted_inv in Hs as [Hs _]. by apply IH.
Qed.

Lemma In_work_items field_variable regions selection item :
  In item (work_items field_variable regions selection) →
  ∃ entry, In entry selection ∧ item.1.1.1 = entry.1.
Proof.
  unfold work_items. rewrite in_flat_map. intros ([i frame] & Hin & Hitem).
  exists (i, frame). split; [done|].
  destruct (fieldOutputs frame !! field_variable) as [field|]; [|done].
  unfold frame_items in Hitem. apply in_flat_map in Hitem as ([R sub] & _ & H).
  apply in_map_iff in H as (v & <- & _). done.
Qed.

Lemma Forall2_In_r {A B} (R : A → B → Prop) l1 l2 y :
  Forall2 R l1 l2 → In y l2 → ∃ x, In x l1 ∧ R x y.
Proof.
  induction 1 as [|x y' l1 l2 HR _ IH]; [done|].
  intros [<-|Hin].
  - exists x. split; [by left|done].
  - destruct (IH Hin) as (x' & ? & ?). exists x'. split; [by right|done].
Qed.

Lemma Forall2_In_l {A B} (R : A → B → Prop) l1 l2 x :
  Forall2 R l1 l2 → In x l1 → ∃ y, In y l2 ∧ R x y.
Proof.
  induction 1 as [|x' y l1 l2 HR _ IH]; [done|].
  intros [<-|Hin].
  - exists y. split; [by left|done].
  - destruct (IH Hin) as (y' & ? & ?). exists y'. split; [by right|done].
Qed.

Lemma row_matches_frame coord_cache cells item :
  row_matches coord_cache cells item →
  row_frame cells = Some (Z.of_nat item.1.1.1)
  ∧ row_region cells = Some item.1.2.
Proof.
  destruct item as [[[i t] region_name] value].
  by intros (x & y & z & _ & ->).
Qed.

Lemma In_passing_entry k start_time end_time frames i frame :
  In (i, frame) (passing_frames k start_time end_time frames)
  ↔ frames !! i = Some frame
    ∧ (Z.of_nat i mod k = 0)%Z
    ∧ (∀ a, start_time = Some a → (a <= frameValue frame)%Q)
    ∧ (∀ b, end_time = Some b → (frameValue frame <= b)%Q).
Proof.
  unfold passing_frames. rewrite filter_In, In_enumerate_from, Nat.sub_0_r.
  unfold passes, stride_ok. simpl.
  rewrite andb_true_iff, Z.eqb_eq, in_window_spec. split.
  - by intros [[_ ?] [? [? ?]]].
  - intros (? & ? & ? & ?). split; [split; [lia|done]|done].
Qed.

(** ** Lazily opened sinks *)

Section SplitMode.

Variable os_sep : ascii.
Variables base ext : string.
Variable header : list string.
Variable field_variable : string.
Variable step_name : string.
Variable coord_cache : gmap string (gmap Z Coordinates).

Local Notation "'act'" :=
  (do_action field_variable step_name coord_cache
             (get_writer_split os_sep base ext header)).
Local Notation "'path_of'" := (split_path os_sep base ext).

(** What one action does to the sinks. *)
Lemma split_action_step a s ev1 s1 r1 :
  act a s = (ev1, s1, r1) →
  (∀ R, dict_get R (writer_handles s1) = None →
        dict_get R (writer_handles s) = None)
  ∧ (∀ c R, In c (data_rows ev1) → row_region c = Some R →
            is_Some (dict_get R (writer_handles s1)))
  ∧ (∀ h p, In (EvOpen h p) ev1 →
            ∃ R cells,
              dict_get R (writer_handles s) = None
              ∧ p = path_of R
              ∧ ev1 = [EvOpen h p; EvWrite h (HeaderLine header);
                       EvWrite h (DataLine cells)]
              ∧ row_region cells = Some R)
  ∧ (∀ R, dict_get R (writer_handles s) = None →
          is_Some (dict_get R (writer_handles s1)) →
          ∃ h, In (EvOpen h (path_of R)) ev1).
Proof.
  destruct a as [i [|]|[[[i t] region_name] value]]; simpl.
  - intros [= <- <- <-]. split_and!; try done.
    + intros h p [?|[]]. done.
    + intros R -> [? ?]. done.
  - unfold bind, emit, raise. simpl. intros [= <- <- <-].
    split_and!; try done.
    + intros h p [?|[]]. done.
    + intros R -> [? ?]. done.
  - unfold write_value, bind, lift.
    destruct (lookup_coords _ _ _) as [coords|e].
    2: { intros [= <- <- <-]. split_and!; try done.
         intros R -> [? ?]. done. }
    rewrite get_writer_split_run.
    destruct (dict_get region_name (writer_handles s)) as [h|] eqn:Hget;
      unfold writerow, emit; simpl; intros [= <- <- <-].
    + split_and!; try done.
      * intros c R [<-|[]] [= <-]. by eexists.
      * intros h' p [?|[]]. done.
      * intros R -> [? ?]. done.
    + simpl. split_and!.
      * intros R. rewrite dict_get_set.
        by destruct (String.eqb R region_name).
      * intros c R [<-|[]] [= <-]. rewrite dict_get_set, String.eqb_refl.
        by eexists.
      * intros h p [[= <- <-]|[?|[?|[]]]]; try done.
        by eexists region_name, _.
      * intros R HR. rewrite dict_get_set.
        destruct (String.eqb_spec R region_name) as [->|?].
        -- intros _. eexists. by left.
        -- rewrite HR. by intros [? ?].
Qed.

(** Every file the loop opens is opened for the first row of a region that
    had no sink yet, at the path of that region, and receives the header
    before that row; every region with a row has had its file opened. *)
Lemma split_loop_sinks acts s evs s' r :
  for_each act acts s = (evs, s', r) →
  (∀ h p, In (EvOpen h p) evs →
          ∃ R pre cells post,
            dict_get R (writer_handles s) = None
            ∧ p = path_of R
            ∧ evs = pre ++ EvOpen h p :: EvWrite h (HeaderLine header)
                        :: EvWrite h (DataLine cells) :: post
            ∧ row_region cells = Some R
            ∧ (∀ c, In c (data_rows pre) → row_region c ≠ Some R))
  ∧ (∀ c R, In c (data_rows evs) → row_region c = Some R →
            is_Some (dict_get R (writer_handles s))
            ∨ ∃ h, In (EvOpen h (path_of R)) evs).
Proof.
  revert s evs s' r. induction acts as [|a acts IH]; intros s evs s' r.
  { intros [= <- <- <-]. by split. }
  cbn [for_each]. unfold bind.
  destruct (act a s) as [[ev1 s1] r1] eqn:Hstep.
  destruct (split_action_step _ _ _ _ _ Hstep) as (F1 & F2 & F3 & F6).
  destruct r1 as [[]|e].
  2: { intros [= <- <- <-]. split.
       - intros h p Hin. destruct (F3 _ _ Hin) as (R & cells & ? & ? & Hev & ?).
         exists R, [], cells, []. rewrite Hev. by split_and!.
       - intros c R Hc HR.
         destruct (dict_get R (writer_handles s)) eqn:HRs; [left; by eexists|].
         right. apply F6; [done|]. by eapply F2. }
  destruct (for_each act acts s1) as [[ev2 s2] r2] eqn:Hrest.
  destruct (IH _ _ _ _ Hrest) as [L1 L2].
  intros [= <- <- <-]. split.
  - intros h p Hin. apply in_app_or in Hin as [Hin|Hin].
    + destruct (F3 _ _ Hin) as (R & cells & ? & ? & Hev & ?).
      exists R, [], cells, ev2. rewrite Hev. by split_and!.
    + destruct (L1 _ _ Hin) as (R & pre & cells & post & HR & ? & Hev & ? & Hpre).
      exists R, (ev1 ++ pre), cells, post.
      split_and!; [by apply F1|done| |done|].
      * rewrite Hev. by rewrite <- app_assoc.
      * intros c Hc. rewrite data_rows_app in Hc.
        apply in_app_or in Hc as [Hc|Hc]; [|by apply Hpre].
        intros HcR. destruct (F2 _ _ Hc HcR) as [? ?]. congruence.
  - intros c R Hc HR. rewrite data_rows_app in Hc.
    destruct (dict_get R (writer_handles s)) eqn:HRs; [left; by eexists|].
    right. apply in_app_or in Hc as [Hc|Hc].
    + destruct (F6 R HRs (F2 _ _ Hc HR)) as [h Hh].
      exists h. apply in_or_app. by left.
    + destruct (L2 _ _ Hc HR) as [Hreg|[h Hh]].
      * destruct (F6 R HRs Hreg) as [h Hh]. exists h. apply in_or_app. by left.
      * exists h. apply in_or_app. by right.
Qed.

Lemma split_action_registry a s ev1 s1 r1 R :
  act a s = (ev1, s1, r1) →
  dict_get R (writer_handles s) = None →
  is_Some (dict_get R (writer_handles s1)) →
  ∃ c, In c (data_rows ev1) ∧ row_region c = Some R.
Proof.
  destruct a as [i [|]|[[[i t] region_name] value]]; simpl.
  - intros [= <- <- <-] -> [? ?]. done.
  - unfold bind, emit, raise. simpl. intros [= <- <- <-] -> [? ?]. done.
  - unfold write_value, bind, lift.
    destruct (lookup_coords _ _ _) as [coords|e].
    2: { intros [= <- <- <-] -> [? ?]. done. }
    rewrite get_writer_split_run.
    destruct (dict_get region_name (writer_handles s)) as [h|] eqn:Hget;
      unfold writerow, emit; simpl; intros [= <- <- <-].
    + intros -> [? ?]. done.
    + simpl. rewrite dict_get_set.
      destruct (String.eqb_spec R region_name) as [->|?].
      * intros _ _. eexists. split; [by left|done].
      * intros -> [? ?]. done.
Qed.

(** A region has a sink when the loop ends exactly when it had one before
    or a row of it was written. *)
Lemma split_loop_registry acts s evs s' r R :
  for_each act acts s = (evs, s', r) →
  is_Some (dict_get R (writer_handles s'))
  ↔ is_Some (dict_get R (writer_handles s))
    ∨ ∃ c, In c (data_rows evs) ∧ row_region c = Some R.
Proof.
  revert s evs s' r. induction acts as [|a acts IH]; intros s evs s' r.
  { intros [= <- <- <-]. split; [by left|]. by intros [?|(? & [] & _)]. }
  cbn [for_each]. unfold bind.
  destruct (act a s) as [[ev1 s1] r1] eqn:Hstep.
  destruct (split_action_step _ _ _ _ _ Hstep) as (F1 & F2 & _ & _).
  pose proof (split_action_registry _ _ _ _ _ R Hstep) as F7.
  assert (is_Some (dict_get R (writer_handles s1))
          ↔ is_Some (dict_get R (writer_handles s))
            ∨ ∃ c, In c (data_rows ev1) ∧ row_region c = Some R) as Hone.
  { split.
    - intros H1. destruct (dict_get R (writer_handles s)) eqn:HRs;
        [left; by eexists|]. right. by apply F7.
    - intros [[x Hx]|(c & Hc & HR)]; [|by eapply F2].
      destruct (dict_get R (writer_handles s1)) eqn:HR1; [by eexists|].
      apply F1 in HR1. congruence. }
  destruct r1 as [[]|e]; [|by intros [= <- <- <-]].
  destruct (for_each act acts s1) as [[ev2 s2] r2] eqn:Hrest.
  intros [= <- <- <-]. rewrite (IH _ _ _ _ Hrest), Hone. split.
  - intros [[?|(c & Hc & ?)]|(c & Hc & ?)]; [by left|right; exists c..].
    + split; [|done]. rewrite data_rows_app. apply in_or_app. by left.
    + split; [|done]. rewrite data_rows_app. apply in_or_app. by right.
  - intros [?|(c & Hc & ?)]; [left; by left|].
    rewrite data_rows_app in Hc. apply in_app_or in Hc as [Hc|Hc].
    + left. right. by exists c.
    + right. by exists c.
Qed.

End SplitMode.

(** In the single-sink mode the loop opens nothing. *)
Lemma single_loop_opens_nothing field_variable step_name coord_cache h acts s :
  opened (for_each (do_action field_variable step_name coord_cache
                              (λ _, ret h)) acts s).1.1 = [].
Proof.
  revert s. induction acts as [|a acts IH]; intros s; [done|].
  cbn [for_each]. unfold bind.
  destruct a as [i [|]|[[[i t] region_name] value]]; simpl.
  - specialize (IH s).
    destruct (for_each _ acts s) as [[ev2 s2] r2]. done.
  - done.
  - unfold write_value, bind, lift.
    destruct (lookup_coords _ _ _) as [coords|e]; [|done]. simpl.
    specialize (IH s).
    destruct (for_each _ acts s) as [[ev2 s2] r2]. done.
Qed.

(** ** Rows and headers *)

Lemma In_opened evs h p : In (EvOpen h p) evs ↔ In (h, p) (opened evs).
Proof.
  unfold opened. rewrite in_flat_map. split.
  - intros H. exists (EvOpen h p). split; [done|by left].
  - intros (e & He & Hin). destruct e; simpl in Hin; try done.
    destruct Hin as [[= <- <-]|[]]. done.
Qed.

Lemma closing_events_open_nothing s h p : ¬ In (EvOpen h p) (closing_events s).
Proof.
  rewrite In_opened. destruct (closing_events_quiet s) as (_ & _ & ->).
  by intros [].
Qed.

(** ** Paths of the split mode *)






(** ** Order of the rows *)

Lemma StronglySorted_app_intro {A} (R : A → A → Prop) l1 l2 :
  StronglySorted R l1 → StronglySorted R l2 →
  (∀ a b, In a l1 → In b l2 → R a b) →
  StronglySorted R (l1 ++ l2).
Proof.
  intros H1 H2 Hcross. induction H1 as [|a l1 H1 IH Hall]; simpl; [done|].
  constructor.
  - apply IH. intros x y Hx Hy. apply Hcross; [by right|done].
  - apply Forall_app. split; [done|].
    apply List.Forall_forall. intros b Hb. apply Hcross; [by left|done].
Qed.

Lemma StronglySorted_all {A} (R : A → A → Prop) l :
  (∀ a b, In a l → In b l → R a b) → StronglySorted R l.
Proof.
  induction l as [|x l IH]; intros H; constructor.
  - apply IH. intros a b Ha Hb. apply H; by right.
  - apply List.Forall_forall. intros b Hb. apply H; [by left|by right].
Qed.

Lemma StronglySorted_prefix {A} (R : A → A → Prop) l1 l2 :
  StronglySorted R (l1 ++ l2) → StronglySorted R l1.
Proof.
  induction l1 as [|a l1 IH]; simpl; intros H; [constructor|].
  apply StronglySorted_inv in H as [H Hall]. constructor; [by apply IH|].
  apply Forall_app in Hall. by destruct Hall.
Qed.

Lemma StronglySorted_pair {A} (R : A → A → Prop) l1 a l2 b l3 :
  StronglySorted R (l1 ++ a :: l2 ++ b :: l3) → R a b.
Proof.
  induction l1 as [|x l1 IH]; simpl; intros H.
  - apply StronglySorted_inv in H as [_ Hall].
    rewrite List.Forall_forall in Hall. apply Hall.
    apply in_or_app. right. by left.
  - apply StronglySorted_inv in H as [H _]. by apply IH.
Qed.

Lemma region_items_order names_before i t
    (l : list (string * list FieldValue)) :
  StronglySorted (item_order (names_before ++ map fst l))
    (flat_map (λ '(region_name, subset),
                 map (λ value, (i, t, region_name, value)) subset) l)
  ∧ ∀ b, In b (flat_map (λ '(region_name, subset),
                           map (λ value, (i, t, region_name, value)) subset) l)
         → b.1.1.1 = i ∧ ∃ q : nat, map fst l !! q = Some b.1.2.
Proof.
  revert names_before.
  induction l as [|[R sub] l IH]; intros names_before; simpl.
  - split; [constructor|done].
  - destruct (IH (names_before ++ [R])) as [Hsorted Hin].
    rewrite <- app_assoc in Hsorted. simpl in Hsorted.
    assert (∀ a, In a (map (λ value : FieldValue, (i, t, R, value)) sub) →
                 a.1.1.1 = i ∧ a.1.2 = R) as Hhere.
    { intros a Ha. by apply in_map_iff in Ha as (v & <- & _). }
    assert ((names_before ++ R :: map fst l) !! length names_before = Some R)
      as Hpos by (by apply list_lookup_middle).
    split.
    + apply StronglySorted_app_intro; [|done|].
      * apply StronglySorted_all. intros a b Ha Hb.
        destruct (Hhere a Ha) as [Hai HaR], (Hhere b Hb) as [Hbi HbR].
        right. split; [congruence|].
        exists (length names_before), (length names_before).
        rewrite HaR, HbR. by split_and!.
      * intros a b Ha Hb.
        destruct (Hhere a Ha) as [Hai HaR], (Hin b Hb) as [Hbi [q Hq]].
        right. split; [congruence|].
        exists (length names_before), (length names_before + S q)%nat.
        rewrite HaR. split_and!; [lia|done|].
        rewrite lookup_app_r by lia.
        by replace (length names_before + S q - length names_before)%nat
          with (S q) by lia.
    + intros b Hb. apply in_app_or in Hb as [Hb|Hb].
      * destruct (Hhere b Hb) as [? ->]. split; [done|]. by exists 0%nat.
      * destruct (Hin b Hb) as [? [q Hq]]. split; [done|]. by exists (S q).
Qed.

Lemma region_iter_names regions field :
  map fst (region_iter regions field) = region_names regions.
Proof.
  unfold region_iter, region_names.
  destruct regions as [[|node_set others]|]; try done.
  by rewrite map_map.
Qed.

Lemma work_items_order field_variable regions selection :
  StronglySorted lt (map fst selection) →
  StronglySorted (item_order (region_names regions))
                 (work_items field_variable regions selection).
Proof.
  induction selection as [|[i frame] selection IH]; simpl; intros Hs.
  - constructor.
  - apply StronglySorted_inv in Hs as [Hs Hall].
    apply StronglySorted_app_intro; [|by apply IH|].
    + destruct (fieldOutputs frame !! field_variable) as [field|];
        [|constructor].
      unfold frame_items.
      destruct (region_items_order [] i (frameValue frame)
                  (region_iter regions field)) as [H _].
      simpl in H. by rewrite region_iter_names in H.
    + intros a b Ha Hb. left.
      destruct (In_work_items _ _ _ _ Hb) as (e & He & ->).
      rewrite List.Forall_forall in Hall.
      assert (a.1.1.1 = i) as ->.
      { destruct (fieldOutputs frame !! field_variable) as [field|]; [|done].
        unfold frame_items in Ha.
        destruct (region_items_order [] i (frameValue frame)
                    (region_iter regions field)) as [_ H].
        by destruct (H a Ha). }
      apply Hall. by apply in_map.
Qed.

Lemma selected_bound start_time end_time k i frames entry :
  In entry (selected_frames start_time end_time k i frames) →
  (i <= entry.1)%nat.
Proof.
  revert i. induction frames as [|f frames IH]; intros i; simpl; [done|].
  destruct (negb _); [intros H; apply IH in H; lia|].
  destruct (before_start _ _); [intros H; apply IH in H; lia|].
  destruct (after_end _ _); [done|].
  intros [<-|H]; [done|]. apply IH in H. lia.
Qed.

Lemma selected_indices_sorted start_time end_time k i frames :
  StronglySorted lt (map fst (selected_frames start_time end_time k i frames)).
Proof.
  revert i. induction frames as [|f frames IH]; intros i; simpl.
  - constructor.
  - destruct (negb _); [apply IH|].
    destruct (before_start _ _); [apply IH|].
    destruct (after_end _ _); [constructor|].
    simpl. constructor; [apply IH|].
    apply List.Forall_forall. intros j Hj.
    apply in_map_iff in Hj as (e & <- & He).
    apply selected_bound in He. lia.
Qed.

Lemma resolved_names root_assembly names :
  (∀ key node_set, nodeSets root_assembly !! key = Some node_set →
                   node_set_name node_set = key) →
  (∀ set_name, In set_name names →
               is_Some (nodeSets root_assembly !! set_name)) →
  map node_set_name (resolved_sets root_assembly names) = names.
Proof.
  intros Hkeyed. induction names as [|n names IH]; intros Hall; [done|].
  unfold resolved_sets. simpl.
  destruct (Hall n) as [node_set Hn]; [by left|]. rewrite Hn. simpl.
  f_equal; [by apply Hkeyed|]. apply IH. intros; apply Hall. by right.
Qed.

Lemma region_names_requested root_assembly node_sets :
  (∀ key node_set, nodeSets root_assembly !! key = Some node_set →
                   node_set_name node_set = key) →
  all_sets_exist root_assembly node_sets →
  region_names (regions_for root_assembly node_sets)
  = match node_sets with
    | Some (n :: ns) => n :: ns
    | _ => ["ALL"]
    end.
Proof.
  intros Hkeyed Hall. destruct node_sets as [[|n ns]|]; try done.
  pose proof (resolved_names root_assembly (n :: ns) Hkeyed
                (λ k Hk, Hall (n :: ns) k eq_refl Hk)) as Hnames.
  unfold regions_for, region_names.
  by destruct (resolved_sets root_assembly (n :: ns)).
Qed.

(** C7.  Of two data rows of a run, the one written first belongs to a
    frame of smaller index, or to the same frame and to a region requested
    no later than the region of the other (names are looked up in the
    request, or in the single name "ALL" when nothing was requested).  So
    for the request B, A no row of A precedes a row of B within a frame. *)
Theorem rows_in_frame_then_request_order
    os_sep os_altsep odb odb_path output_csv step_name node_sets
    field_variable start_time end_time frame_stride split_by_node_set
    step evs s' r :
  let requested :=
    match node_sets with
    | Some (n :: ns) => n :: ns
    | _ => ["ALL"]
    end in
  (1 <= frame_stride)%Z →
  steps odb !! step_name = Some step →
  all_sets_exist (rootAssembly odb) node_sets →
  (∀ key node_set, nodeSets (rootAssembly odb) !! key = Some node_set →
                   node_set_name node_set = key) →
  export_temperatures os_sep os_altsep odb odb_path output_csv step_name
    node_sets field_variable start_time end_time frame_stride
    split_by_node_set initial_state = (evs, s', r) →
  ∀ l1 c1 l2 c2 l3,
    data_rows evs = l1 ++ c1 :: l2 ++ c2 :: l3 →
    ∃ i1 region1 i2 region2,
      row_frame c1 = Some (Z.of_nat i1) ∧ row_region c1 = Some region1
      ∧ row_frame c2 = Some (Z.of_nat i2) ∧ row_region c2 = Some region2
      ∧ ((i1 < i2)%nat
         ∨ (i1 = i2
            ∧ ∃ p1 p2 : nat, (p1 <= p2)%nat
                             ∧ requested !! p1 = Some region1
                             ∧ requested !! p2 = Some region2)).
Proof.
  intros requested Hstride Hstep Hsets Hkeyed Hrun l1 c1 l2 c2 l3 Hsplit.
  destruct (export_summary os_sep os_altsep odb odb_path output_csv step_name
              node_sets field_variable start_time end_time frame_stride
              split_by_node_set step Hstride Hstep Hsets)
    as (evs' & s'' & Hrun' & Hrows & _).
  rewrite Hrun in Hrun'. injection Hrun' as <- <- _.
  destruct (selection_rows field_variable step_name
              (regions_for (rootAssembly odb) node_sets)
              (_build_coordinate_cache (instances (rootAssembly odb)))
              (selected_frames start_time end_time frame_stride 0
                 (frames step)))
    as (written & pending & Hitems & Hmatch & _).
  rewrite <- Hrows, Hsplit in Hmatch.
  apply Forall2_app_inv_l in Hmatch as (m1 & rest1 & _ & Hmatch & ->).
  apply Forall2_cons_inv_l in Hmatch as (a & rest2 & Ha & Hmatch & ->).
  apply Forall2_app_inv_l in Hmatch as (m2 & rest3 & _ & Hmatch & ->).
  apply Forall2_cons_inv_l in Hmatch as (b & m3 & Hb & _ & ->).
  pose proof (work_items_order field_variable
                (regions_for (rootAssembly odb) node_sets) _
                (selected_indices_sorted start_time end_time frame_stride 0
                   (frames step))) as Hsorted.
  rewrite Hitems in Hsorted. apply StronglySorted_prefix in Hsorted.
  apply StronglySorted_pair in Hsorted.
  rewrite region_names_requested in Hsorted by done.
  apply row_matches_frame in Ha as [Ha1 Ha2], Hb as [Hb1 Hb2].
  by exists a.1.1.1, a.1.2, b.1.1.1, b.1.2.
Qed.

(** ** Colliding region names *)

Lemma safe_name_collision os_sep :
  safe_name_of os_sep "A B" = safe_name_of os_sep "A_B".
Proof.
  unfold safe_name_of. cbn [replace]. do 2 f_equal.
  destruct (Ascii.eqb " " os_sep), (Ascii.eqb "_" os_sep); reflexivity.
Qed.

(** ** Release of the archive *)

Lemma single_loop_keeps_state field_variable step_name coord_cache h acts s :
  (for_each (do_action field_variable step_name coord_cache
                       (λ _, ret h)) acts s).1.2 = s.
Proof.
  revert s. induction acts as [|a acts IH]; intros s; [done|].
  cbn [for_each]. unfold bind.
  destruct a as [i [|]|[[[i t] region_name] value]]; simpl.
  - specialize (IH s).
    destruct (for_each _ acts s) as [[ev2 s2] r2]. done.
  - done.
  - unfold write_value, bind, lift.
    destruct (lookup_coords _ _ _) as [coords|e]; [|done]. simpl.
    specialize (IH s).
    destruct (for_each _ acts s) as [[ev2 s2] r2]. done.
Qed.


Lemma split_action_handles os_sep base ext header field_variable step_name
    coord_cache a s ev1 s1 r1 :
  do_action field_variable step_name coord_cache
            (get_writer_split os_sep base ext header) a s = (ev1, s1, r1) →
  (∀ R h, dict_get R (writer_handles s) = Some h →
          dict_get R (writer_handles s1) = Some h)
  ∧ (∀ h p, In (EvOpen h p) ev1 →
            ∃ R, dict_get R (writer_handles s1) = Some h)
  ∧ (∀ h, ¬ In (EvClose h) ev1) ∧ ¬ In EvCloseOdb ev1.
Proof.
  destruct a as [i [|]|[[[i t] region_name] value]]; simpl.
  - intros [= <- <- <-]. split_and!; try done.
    + by intros h p [?|[]].
    + by intros h [?|[]].
    + by intros [?|[]].
  - unfold bind, emit, raise. simpl. intros [= <- <- <-].
    split_and!; try done.
    + by intros h p [?|[]].
    + by intros h [?|[]].
    + by intros [?|[]].
  - unfold write_value, bind, lift.
    destruct (lookup_coords _ _ _) as [coords|e].
    2: { intros [= <- <- <-].
         split_and!; [done|by intros ? ? []|by intros ? []|by intros []]. }
    rewrite get_writer_split_run.
    destruct (dict_get region_name (writer_handles s)) as [h|] eqn:Hget;
      unfold writerow, emit; simpl; intros [= <- <- <-].
    + split_and!; try done.
      * by intros h' p [?|[]].
      * by intros h' [?|[]].
      * by intros [?|[]].
    + simpl. split_and!.
      * intros R h HR. rewrite dict_get_set.
        destruct (String.eqb_spec R region_name) as [->|?]; [congruence|done].
      * intros h p [[= <- <-]|[?|[?|[]]]]; try done.
        exists region_name. by rewrite dict_get_set, String.eqb_refl.
      * by intros h [?|[?|[?|[]]]].
      * by intros [?|[?|[?|[]]]].
Qed.

Lemma split_loop_handles os_sep base ext header field_variable step_name
    coord_cache acts s evs s' r :
  for_each (do_action field_variable step_name coord_cache
                      (get_writer_split os_sep base ext header)) acts s
  = (evs, s', r) →
  (∀ R h, dict_get R (writer_handles s) = Some h →
          dict_get R (writer_handles s') = Some h)
  ∧ (∀ h p, In (EvOpen h p) evs →
            ∃ R, dict_get R (writer_handles s') = Some h)
  ∧ (∀ h, ¬ In (EvClose h) evs) ∧ ¬ In EvCloseOdb evs.
Proof.
  revert s evs s' r. induction acts as [|a acts IH]; intros s evs s' r.
  { intros [= <- <- <-].
    split_and!; [done|by intros ? ? []|by intros ? []|by intros []]. }
  cbn [for_each]. unfold bind.
  destruct (do_action _ _ _ _ a s) as [[ev1 s1] r1] eqn:Hstep.
  destruct (split_action_handles _ _ _ _ _ _ _ _ _ _ _ _ Hstep)
    as (G1 & G2 & G3 & G4).
  destruct r1 as [[]|e]; [|by intros [= <- <- <-]].
  destruct (for_each _ acts s1) as [[ev2 s2] r2] eqn:Hrest.
  destruct (IH _ _ _ _ Hrest) as (H1 & H2 & H3 & H4).
  intros [= <- <- <-]. split_and!.
  - intros R h HR. by apply H1, G1.
  - intros h p Hin. apply in_app_or in Hin as [Hin|Hin]; [|by eapply H2].
    destruct (G2 _ _ Hin) as [R HR]. exists R. by apply H1.
  - intros h Hin. apply in_app_or in Hin as [Hin|Hin]; [by eapply G3|by eapply H3].
  - intros Hin. apply in_app_or in Hin as [Hin|Hin]; done.
Qed.



(** C2.  The [finally] block closes every registered sink and then the
    archive, but the archive is opened before the [try]: a run with a valid
    stride that stops at an unknown step name or at an unknown node-set
    name has opened the archive and ends without closing it. *)
Theorem early_exits_leave_the_archive_open
    os_sep os_altsep odb odb_path output_csv step_name node_sets
    field_variable start_time end_time frame_stride split_by_node_set
    evs s' r :
  (1 <= frame_stride)%Z →
  steps odb !! step_name = None
  ∨ (∃ names bad, node_sets = Some names ∧ In bad names
                  ∧ nodeSets (rootAssembly odb) !! bad = None) →
  export_temperatures os_sep os_altsep odb odb_path output_csv step_name
    node_sets field_variable start_time end_time frame_stride
    split_by_node_set initial_state = (evs, s', r) →
  evs = [EvOpenOdb odb_path]
  ∧ (∃ msg, r = Raise (SystemExit msg))
  ∧ ¬ In EvCloseOdb evs.
Proof.
  intros Hstride Hcase. unfold export_temperatures.
  destruct (Z.ltb_spec frame_stride 1) as [?|_]; [lia|].
  unfold bind at 1. unfold emit at 1.
  destruct (steps odb !! step_name) as [step|] eqn:Hstep.
  - destruct Hcase as [?|(names & bad & -> & Hin & Hbad)]; [done|].
    destruct names as [|n ns]; [done|].
    unfold bind at 1. unfold bind at 1.
    destruct (resolve_some_absent (rootAssembly odb) (n :: ns) initial_state)
      as (bad' & _ & _ & ->); [by exists bad|].
    intros [= <- <- <-]. split_and!; [done|by eexists|by intros [?|[]]].
  - intros [= <- <- <-]. split_and!; [done|by eexists|by intros [?|[]]].
Qed.

(** ** The theorems at concrete inputs *)

Lemma has_coordinates_check coord_cache items :
  forallb (has_coordinatesb coord_cache) items = true →
  Forall (has_coordinates coord_cache) items.
Proof.
  rewrite forallb_forall. intros H. apply List.Forall_forall. intros item Hin.
  specialize (H item Hin). unfold has_coordinatesb, has_coordinates in *.
  destruct (lookup_coords _ _ _) as [coords|]; [by exists coords|done].
Qed.

Lemma stores_field_check field_variable (selection : list (nat * OdbFrame)) :
  forallb (stores_field field_variable) selection = true →
  ∀ entry, In entry selection →
           is_Some (fieldOutputs entry.2 !! field_variable).
Proof.
  rewrite forallb_forall. intros H entry Hin. specialize (H entry Hin).
  unfold stores_field in H.
  destruct (fieldOutputs entry.2 !! field_variable); [by eexists|done].
Qed.

Lemma sample_assembly_keyed key node_set :
  nodeSets sample_assembly !! key = Some node_set →
  node_set_name node_set = key.
Proof.
  unfold sample_assembly. simpl. intros H.
  apply lookup_insert_Some in H as [[<- <-]|[_ H]]; [done|].
  by apply lookup_singleton_Some in H as [<- <-].
Qed.

Example split_path_of_sensors :
  let '(stem, suffix) := splitext "/" None "out.csv" in
  split_path "/" stem (output_extension suffix) "SENSORS N"
  = "out__SENSORS_N.csv".
Proof. reflexivity. Qed.

Example splitext_samples :
  splitext "/" None "results/run.1/out" = ("results/run.1/out", "")
  ∧ splitext "/" None "dir/.hidden" = ("dir/.hidden", "")
  ∧ splitext "/" None "archive.tar.gz" = ("archive.tar", ".gz")
  ∧ splitext "\" (Some "/"%char) "c:\runs.d/out" = ("c:\runs.d/out", "").
Proof. by vm_compute. Qed.

Lemma end_time_stops_start_time_skips_witness :
  let cache := _build_coordinate_cache [part1] in
  let loop :=
    for_frames "NT11" "HeatStep" (Some (2 # 1)) (Some (4 # 1)) 1 None cache
               (λ _, ret 0%nat) in
  let pre := map (λ n, frame_at (inject_Z n)) [0; 1; 2; 3; 4]%Z in
  loop 0%nat (pre ++ frame_at (40001 # 10000) :: [frame_at (3 # 1)])
       initial_state
  = loop 0%nat pre initial_state
  ∧ loop 0%nat (frame_at 0 :: [frame_at (3 # 1)]) initial_state
    = loop 1%nat [frame_at (3 # 1)] initial_state.
Proof.
  intros cache loop pre.
  destruct (end_time_stops_start_time_skips "NT11" "HeatStep" (Some (2 # 1))
              (Some (4 # 1)) 1 None cache (λ _, ret 0%nat))
    as [Hstop Hskip].
  split.
  - apply (Hstop (4 # 1)); reflexivity.
  - apply (Hskip (2 # 1)); reflexivity.
Defined.

Lemma unknown_node_set_fails_before_extraction_witness :
  let run :=
    export_temperatures "/" None sample_odb "Job-4.odb" "out.csv" "HeatStep"
      (Some ["GHOST"]) "NT11" None None 1 false initial_state in
  run.2 = Raise (SystemExit
            "Node set 'GHOST' not found in the ODB. Available sets: A, B")
  ∧ processed_frames run.1.1 = [] ∧ data_rows run.1.1 = []
  ∧ opened run.1.1 = [] ∧ ∃ e, run.2 = Raise e.
Proof.
  intros run. split; [by vm_compute|].
  apply (unknown_node_set_fails_before_extraction "/" None sample_odb
           "Job-4.odb" "out.csv" "HeatStep" ["GHOST"] "NT11" None None 1 false
           run.1.1 run.1.2 run.2).
  - exists "GHOST". split; [by left|by vm_compute].
  - by vm_compute.
Defined.

Lemma rows_in_frame_then_request_order_witness :
  let run :=
    export_temperatures "/" None sample_odb "Job-4.odb" "out.csv" "Tenths"
      (Some ["B"; "A"]) "NT11" None None 2 false initial_state in
  map row_region (data_rows run.1.1)
  = [Some "B"; Some "A"; Some "B"; Some "A"]
  ∧ map row_frame (data_rows run.1.1) = [Some 0; Some 0; Some 2; Some 2]%Z
  ∧ ∀ l1 c1 l2 c2 l3,
      data_rows run.1.1 = l1 ++ c1 :: l2 ++ c2 :: l3 →
      ∃ i1 region1 i2 region2,
        row_frame c1 = Some (Z.of_nat i1) ∧ row_region c1 = Some region1
        ∧ row_frame c2 = Some (Z.of_nat i2) ∧ row_region c2 = Some region2
        ∧ ((i1 < i2)%nat
           ∨ (i1 = i2
              ∧ ∃ p1 p2 : nat, (p1 <= p2)%nat
                               ∧ ["B"; "A"] !! p1 = Some region1
                               ∧ ["B"; "A"] !! p2 = Some region2)).
Proof.
  intros run. split; [by vm_compute|]. split; [by vm_compute|].
  apply (rows_in_frame_then_request_order "/" None sample_odb "Job-4.odb"
           "out.csv" "Tenths" (Some ["B"; "A"]) "NT11" None None 2 false
           tenths run.1.1 run.1.2 run.2).
  - lia.
  - by vm_compute.
  - apply all_sets_exist_check. by vm_compute.
  - apply sample_assembly_keyed.
  - by vm_compute.
Defined.

Lemma early_exits_leave_the_archive_open_witness :
  (let run :=
     export_temperatures "/" None sample_odb "Job-4.odb" "out.csv" "NoStep"
       None "NT11" None None 1 false initial_state in
   run.2 = Raise (SystemExit
     "Step 'NoStep' not found in ODB 'Job-4.odb'. Available steps: Gap, HeatStep, Stray, Tenths")
   ∧ run.1.1 = [EvOpenOdb "Job-4.odb"]
   ∧ (∃ msg, run.2 = Raise (SystemExit msg))
   ∧ ¬ In EvCloseOdb run.1.1)
  ∧ (let run :=
       export_temperatures "/" None sample_odb "Job-4.odb" "out.csv" "HeatStep"
         (Some ["GHOST"]) "NT11" None None 1 false initial_state in
     run.1.1 = [EvOpenOdb "Job-4.odb"]
     ∧ (∃ msg, run.2 = Raise (SystemExit msg))
     ∧ ¬ In EvCloseOdb run.1.1).
Proof.
  split.
  - intros run. split; [by vm_compute|].
    apply (early_exits_leave_the_archive_open "/" None sample_odb "Job-4.odb"
             "out.csv" "NoStep" None "NT11" None None 1 false
             run.1.1 run.1.2 run.2).
    + lia.
    + left. by vm_compute.
    + by vm_compute.
  - intros run.
    apply (early_exits_leave_the_archive_open "/" None sample_odb "Job-4.odb"
             "out.csv" "HeatStep" (Some ["GHOST"]) "NT11" None None 1 false
             run.1.1 run.1.2 run.2).
    + lia.
    + right. exists ["GHOST"], "GHOST". split_and!; [done|by left|].
      by vm_compute.
    + by vm_compute.
Defined.


Lemma coordinate_cache_lookup_witness :
  lookup_coords (_build_coordinate_cache (instances sample_assembly))
                "PART-1" 7
  = Ok (1, 2, 3)%Q.
Proof.
  apply (coordinate_cache_lookup (instances sample_assembly) [] part1 []
           [] (mkNode 7 (1, 2, 3)%Q) [mkNode 8 (0, 0, 0)%Q]).
  - reflexivity.
  - intros other [].
  - reflexivity.
  - intros other [<-|[]]. discriminate.
Defined.

(** The frames considered with a stride of three over ten frames, and the
    times exported from frames at 0..5 for the window from 2 to 4. *)
Example stride_three_of_ten :
  processed_frames
    (export_temperatures "/" None sample_odb "Job-4.odb" "out.csv" "HeatStep"
       None "NT11" None None 3 false initial_state).1.1
  = [0; 3; 6; 9]%nat.
Proof. by vm_compute. Qed.

Example window_two_to_four :
  processed_frames
    (export_temperatures "/" None sample_odb "Job-4.odb" "out.csv" "HeatStep"
       None "NT11" (Some (2 # 1)) (Some (4 # 1)) 1 false initial_state).1.1
  = [2; 3; 4]%nat.
Proof. by vm_compute. Qed.

(** * Further properties of the code *)

(** ** Validation order *)

Lemma insert_sorted_sorted x l :
  Sorted (λ a b, String.leb a b = true) l →
  Sorted (λ a b, String.leb a b = true) (insert_sorted x l).
Proof.
  induction 1 as [|y l Hl IH Hhd]; simpl.
  - by repeat constructor.
  - destruct (String.leb x y) eqn:Hxy.
    + constructor; [by constructor|by constructor].
    + constructor; [done|].
      assert (String.leb y x = true) as Hyx
        by (destruct (String.leb_total x y); congruence).
      destruct Hhd as [|z l' Hyz]; simpl; [by constructor|].
      destruct (String.leb x z); by constructor.
Qed.

Lemma sorted_is_sorted l : Sorted (λ a b, String.leb a b = true) (sorted l).
Proof.
  induction l as [|x l IH]; simpl; [constructor|].
  by apply insert_sorted_sorted.
Qed.

(** X1.  The stride is checked before anything else and the step before
    the node sets.  With a stride below one the call raises [ValueError]
    without opening the archive, whatever the other arguments are.  With a
    valid stride and an unknown step it raises the "Step not found" error,
    also when requested node sets are unknown too; the message gives the
    step name, the archive path and the names of all steps of the archive,
    each once, in ascending order, separated by a comma and a space. *)
Theorem validation_order
    os_sep os_altsep odb odb_path output_csv step_name node_sets
    field_variable start_time end_time frame_stride split_by_node_set s :
  let run :=
    export_temperatures os_sep os_altsep odb odb_path output_csv step_name
      node_sets field_variable start_time end_time frame_stride
      split_by_node_set s in
  ((frame_stride < 1)%Z →
   run = ([], s, Raise (ValueError "frame_stride must be >= 1")))
  ∧ ((1 <= frame_stride)%Z → steps odb !! step_name = None →
     ∃ available,
       run = ([EvOpenOdb odb_path], s,
              Raise (SystemExit
                       ("Step '" +:+ step_name +:+ "' not found in ODB '"
                        +:+ odb_path +:+ "'. Available steps: "
                        +:+ join ", " available)))
       ∧ (∀ k, In k available ↔ is_Some (steps odb !! k))
       ∧ NoDup available
       ∧ Sorted (λ a b, String.leb a b = true) available).
Proof.
  intros run. subst run. unfold export_temperatures. split.
  - intros Hlt. by destruct (Z.ltb_spec frame_stride 1) as [_|?]; [|lia].
  - intros Hge Hnone. destruct (Z.ltb_spec frame_stride 1) as [?|_]; [lia|].
    unfold bind at 1. unfold emit at 1. rewrite Hnone.
    exists (sorted_keys (steps odb)). split_and!.
    + done.
    + apply In_sorted_keys.
    + unfold sorted_keys. rewrite sorted_perm. apply NoDup_fst_map_to_list.
    + apply sorted_is_sorted.
Qed.

Lemma validation_order_witness :
  export_temperatures "/" None sample_odb "Job-4.odb" "out.csv" "HeatStep"
    None "NT11" None None 0 false initial_state
  = ([], initial_state, Raise (ValueError "frame_stride must be >= 1"))
  ∧ ∃ available,
      export_temperatures "/" None sample_odb "Job-4.odb" "out.csv" "NoStep"
        (Some ["GHOST"]) "NT11" None None 1 false initial_state
      = ([EvOpenOdb "Job-4.odb"], initial_state,
         Raise (SystemExit
                  ("Step '" +:+ "NoStep" +:+ "' not found in ODB '"
                   +:+ "Job-4.odb" +:+ "'. Available steps: "
                   +:+ join ", " available)))
      ∧ (∀ k, In k available ↔ is_Some (steps sample_odb !! k))
      ∧ NoDup available
      ∧ Sorted (λ a b, String.leb a b = true) available.
Proof.
  split.
  - apply (validation_order "/" None sample_odb "Job-4.odb" "out.csv"
             "HeatStep" None "NT11" None None 0 false initial_state). lia.
  - apply (validation_order "/" None sample_odb "Job-4.odb" "out.csv"
             "NoStep" (Some ["GHOST"]) "NT11" None None 1 false initial_state).
    + lia.
    + by vm_compute.
Defined.

(** ** Resolution of node sets *)

(** X2.  When every requested name is in the catalog, resolution returns
    the catalog's objects for the names, one per requested name and in
    request order (repeated names included), and has no effect. *)
Theorem resolve_follows_the_request root_assembly names s :
  (∀ set_name, In set_name names →
               is_Some (nodeSets root_assembly !! set_name)) →
  ∃ resolved,
    _resolve_node_sets root_assembly names s = ([], s, Ok resolved)
    ∧ Forall2 (λ set_name node_set,
                 nodeSets root_assembly !! set_name = Some node_set)
              names resolved.
Proof.
  intros Hall. exists (resolved_sets root_assembly names).
  split; [by apply resolve_all_present|].
  induction names as [|n names IH]; [constructor|].
  unfold resolved_sets. simpl.
  destruct (Hall n) as [node_set Hn]; [by left|]. rewrite Hn. simpl.
  constructor; [done|]. apply IH. intros; apply Hall. by right.
Qed.

Lemma resolve_follows_the_request_witness :
  ∃ resolved,
    _resolve_node_sets sample_assembly ["B"; "A"; "B"] initial_state
    = ([], initial_state, Ok resolved)
    ∧ Forall2 (λ set_name node_set,
                 nodeSets sample_assembly !! set_name = Some node_set)
              ["B"; "A"; "B"] resolved.
Proof.
  apply (resolve_follows_the_request sample_assembly ["B"; "A"; "B"]
           initial_state).
  intros set_name Hin.
  eapply all_sets_exist_check; [|reflexivity|exact Hin]. by vm_compute.
Defined.

(** X3.  Resolution stops at the first requested name that is not in the
    catalog: the error names that one, whatever follows it in the request,
    and lists the sorted names of the catalog. *)
Theorem resolve_reports_the_first_missing root_assembly found bad rest s :
  (∀ set_name, In set_name found →
               is_Some (nodeSets root_assembly !! set_name)) →
  nodeSets root_assembly !! bad = None →
  _resolve_node_sets root_assembly (found ++ bad :: rest) s
  = ([], s,
     Raise (SystemExit
              ("Node set '" +:+ bad
               +:+ "' not found in the ODB. Available sets: "
               +:+ join ", " (sorted_keys (nodeSets root_assembly))))).
Proof.
  intros Hfound Hbad. induction found as [|n found IH]; simpl.
  - by rewrite Hbad.
  - destruct (Hfound n) as [node_set Hn]; [by left|]. rewrite Hn.
    unfold bind. rewrite IH by (intros; apply Hfound; by right). done.
Qed.

Lemma resolve_reports_the_first_missing_witness :
  _resolve_node_sets sample_assembly (["B"] ++ "GHOST" :: ["A"; "PHANTOM"])
                     initial_state
  = ([], initial_state,
     Raise (SystemExit
              ("Node set '" +:+ "GHOST"
               +:+ "' not found in the ODB. Available sets: "
               +:+ join ", " (sorted_keys (nodeSets sample_assembly))))).
Proof.
  apply (resolve_reports_the_first_missing sample_assembly ["B"] "GHOST"
           ["A"; "PHANTOM"] initial_state).
  - intros set_name Hin.
    eapply all_sets_exist_check; [|reflexivity|exact Hin]. by vm_compute.
  - by vm_compute.
Defined.

(** ** Misses of the coordinate cache *)

(** X5.  The cache has no entry for a name that no instance bears, and the
    entry of a name holds the nodes of the last instance of that name only:
    a lookup raises [KeyError] with the instance name in the first case and
    with the node label when that instance has no node of the label. *)
Theorem coordinate_cache_miss instances instance_name node_label :
  ((∀ other, In other instances → name other ≠ instance_name) →
   lookup_coords (_build_coordinate_cache instances) instance_name node_label
   = Raise (KeyError (KStr instance_name)))
  ∧ (∀ before instance after,
       instances = before ++ instance :: after →
       name instance = instance_name →
       (∀ other, In other after → name other ≠ instance_name) →
       (∀ node, In node (nodes instance) → label node ≠ node_label) →
       lookup_coords (_build_coordinate_cache instances) instance_name
                     node_label
       = Raise (KeyError (KInt node_label))).
Proof.
  unfold lookup_coords, _build_coordinate_cache. split.
  - intros Hnone.
    rewrite (foldl_insert_other name (λ i, coord_map_of (nodes i))) by done.
    by rewrite lookup_empty.
  - intros before instance after -> <- Hafter Hnodes.
    rewrite foldl_app. simpl.
    rewrite (foldl_insert_other name (λ i, coord_map_of (nodes i))) by done.
    rewrite lookup_insert_eq. unfold coord_map_of.
    rewrite (foldl_insert_other label coordinates) by done.
    by rewrite lookup_empty.
Qed.

Lemma coordinate_cache_miss_witness :
  lookup_coords (_build_coordinate_cache [part1]) "PART-2" 7
  = Raise (KeyError (KStr "PART-2"))
  ∧ lookup_coords
      (_build_coordinate_cache [part1; mkInstance "PART-1" [mkNode 8 (0, 0, 0)%Q]])
      "PART-1" 7
    = Raise (KeyError (KInt 7)).
Proof.
  split.
  - apply (coordinate_cache_miss [part1] "PART-2" 7).
    intros other [<-|[]]. discriminate.
  - apply (proj2 (coordinate_cache_miss
                    [part1; mkInstance "PART-1" [mkNode 8 (0, 0, 0)%Q]]
                    "PART-1" 7)
             [part1] (mkInstance "PART-1" [mkNode 8 (0, 0, 0)%Q]) []).
    + reflexivity.
    + reflexivity.
    + intros other [].
    + intros node [<-|[]]. discriminate.
Defined.

(** ** File names of the split mode *)

(** X9.  The name put into a file path has the length of the region name
    and, the separator not being the underscore, contains neither the
    separator nor a space: each of its characters is an underscore or a
    character of the region name.  A region name without separator and
    space is used as it is. *)
Theorem safe_name_has_no_separator os_sep set_name :
  os_sep ≠ "_"%char →
  String.length (safe_name_of os_sep set_name) = String.length set_name
  ∧ (∀ c, In c (list_ascii_of_string (safe_name_of os_sep set_name)) →
          c ≠ os_sep ∧ c ≠ " "%char
          ∧ (c = "_"%char ∨ In c (list_ascii_of_string set_name)))
  ∧ ((∀ c, In c (list_ascii_of_string set_name) →
           c ≠ os_sep ∧ c ≠ " "%char) →
     safe_name_of os_sep set_name = set_name).
Proof.
  intros Hsep. unfold safe_name_of.
  induction set_name as [|a rest (IHlen & IHchars & IHsame)].
  - split_and!; [done|by intros c []|done].
  - cbn [replace list_ascii_of_string String.length]. split_and!.
    + by rewrite IHlen.
    + intros c [<-|Hc].
      * destruct (Ascii.eqb_spec a os_sep) as [->|Ha].
        -- destruct (Ascii.eqb_spec "_" " "); [done|].
           split_and!; [by intros <-|done|by left].
        -- destruct (Ascii.eqb_spec a " ") as [->|Hb].
           ++ split_and!; [by intros <-|done|by left].
           ++ split_and!; [done|done|right; by left].
      * destruct (IHchars c Hc) as (? & ? & [?|?]); split_and!; auto.
        right. by right.
    + intros Hclean. destruct (Hclean a) as [Ha Hb]; [by left|].
      destruct (Ascii.eqb_spec a os_sep) as [?|_]; [done|].
      destruct (Ascii.eqb_spec a " ") as [?|_]; [done|].
      f_equal. apply IHsame. intros c Hc. apply Hclean. by right.
Qed.

Lemma safe_name_has_no_separator_witness :
  safe_name_of "/" "hot/end 1" = "hot_end_1"
  ∧ String.length (safe_name_of "/" "hot/end 1") = String.length "hot/end 1"
  ∧ (∀ c, In c (list_ascii_of_string (safe_name_of "/" "hot/end 1")) →
          c ≠ "/"%char ∧ c ≠ " "%char
          ∧ (c = "_"%char ∨ In c (list_ascii_of_string "hot/end 1")))
  ∧ ((∀ c, In c (list_ascii_of_string "hot/end 1") →
           c ≠ "/"%char ∧ c ≠ " "%char) →
     safe_name_of "/" "hot/end 1" = "hot/end 1").
Proof.
  split; [reflexivity|].
  apply (safe_name_has_no_separator "/" "hot/end 1"). discriminate.
Defined.

(** ** Frames without an order on their times *)

Lemma selected_passes start_time end_time k i frames entry :
  In entry (selected_frames start_time end_time k i frames) →
  In entry (List.filter (passes k start_time end_time)
                        (enumerate_from i frames)).
Proof.
  revert i. induction frames as [|f frames IH]; intros i; simpl; [done|].
  unfold passes at 1, stride_ok. simpl.
  destruct (Z.of_nat i mod k =? 0)%Z; simpl; [|apply IH].
  unfold in_window, before_start, after_end, Qltb.
  destruct start_time as [a|], end_time as [b|]; simpl.
  - destruct (Qle_bool a (frameValue f)); simpl; [|apply IH].
    destruct (Qle_bool (frameValue f) b); simpl; [|done].
    intros [<-|H]; [by left|right; by apply IH].
  - destruct (Qle_bool a (frameValue f)); simpl; [|apply IH].
    intros [<-|H]; [by left|right; by apply IH].
  - destruct (Qle_bool (frameValue f) b); simpl; [|done].
    intros [<-|H]; [by left|right; by apply IH].
  - intros [<-|H]; [by left|right; by apply IH].
Qed.

(** X11.  Whatever the order of the frame times, the frames that reach
    field extraction are consulted in strictly increasing index order, each
    at most once, and each of them has an index that is a multiple of the
    stride and a time within the bounds that are set. *)
Theorem processed_frames_pass_the_filters
    os_sep os_altsep odb odb_path output_csv step_name node_sets
    field_variable start_time end_time frame_stride split_by_node_set
    step evs s' r :
  (1 <= frame_stride)%Z →
  steps odb !! step_name = Some step →
  all_sets_exist (rootAssembly odb) node_sets →
  export_temperatures os_sep os_altsep odb odb_path output_csv step_name
    node_sets field_variable start_time end_time frame_stride
    split_by_node_set initial_state = (evs, s', r) →
  StronglySorted lt (processed_frames evs)
  ∧ ∀ i, In i (processed_frames evs) →
         ∃ frame, frames step !! i = Some frame
                  ∧ (Z.of_nat i mod frame_stride = 0)%Z
                  ∧ (∀ a, start_time = Some a → (a <= frameValue frame)%Q)
                  ∧ (∀ b, end_time = Some b → (frameValue frame <= b)%Q).
Proof.
  intros Hstride Hstep Hsets Hrun.
  destruct (export_summary os_sep os_altsep odb odb_path output_csv step_name
              node_sets field_variable start_time end_time frame_stride
              split_by_node_set step Hstride Hstep Hsets)
    as (evs' & s'' & Hrun' & _ & Hframes).
  rewrite Hrun in Hrun'. injection Hrun' as <- <- _.
  destruct (frames_of_selection field_variable step_name
              (regions_for (rootAssembly odb) node_sets)
              (_build_coordinate_cache (instances (rootAssembly odb)))
              (selected_frames start_time end_time frame_stride 0
                 (frames step)))
    as (rest & Heq & _).
  rewrite <- Hframes in Heq.
  pose proof (selected_indices_sorted start_time end_time frame_stride 0
                (frames step)) as Hsorted.
  rewrite Heq in Hsorted. split; [by eapply StronglySorted_prefix|].
  intros i Hi.
  assert (In i (map fst (selected_frames start_time end_time frame_stride 0
                           (frames step)))) as Hsel
    by (rewrite Heq; apply in_or_app; by left).
  apply in_map_iff in Hsel as ([j frame] & <- & Hin).
  apply selected_passes in Hin. exists frame.
  by apply (In_passing_entry frame_stride start_time end_time (frames step)).
Qed.

Lemma processed_frames_pass_the_filters_witness :
  let unordered :=
    mkOdb {[ "HeatStep" :=
               mkStep [frame_at 5; frame_at 1; frame_at 9; frame_at 2] ]}
          sample_assembly in
  let run :=
    export_temperatures "/" None unordered "Job-4.odb" "out.csv" "HeatStep"
      None "NT11" None (Some (6 # 1)) 1 false initial_state in
  processed_frames run.1.1 = [0; 1]%nat
  ∧ StronglySorted lt (processed_frames run.1.1)
  ∧ ∀ i, In i (processed_frames run.1.1) →
         ∃ frame,
           [frame_at 5; frame_at 1; frame_at 9; frame_at 2] !! i = Some frame
           ∧ (Z.of_nat i mod 1 = 0)%Z
           ∧ (∀ a, None = Some a → (a <= frameValue frame)%Q)
           ∧ (∀ b, Some (6 # 1) = Some b → (frameValue frame <= b)%Q).
Proof.
  intros unordered run. split; [by vm_compute|].
  apply (processed_frames_pass_the_filters "/" None unordered "Job-4.odb"
           "out.csv" "HeatStep" None "NT11" None (Some (6 # 1)) 1 false
           (mkStep [frame_at 5; frame_at 1; frame_at 9; frame_at 2])
           run.1.1 run.1.2 run.2).
  - lia.
  - by vm_compute.
  - apply all_sets_exist_none.
  - by vm_compute.
Defined.

(** X12.  With an end time below the start time no frame is consulted and
    no row is written; the run returns normally, even on a step whose
    frames do not store the field. *)
Theorem empty_window_exports_nothing
    os_sep os_altsep odb odb_path output_csv step_name node_sets
    field_variable a b frame_stride split_by_node_set step evs s' r :
  (1 <= frame_stride)%Z →
  steps odb !! step_name = Some step →
  all_sets_exist (rootAssembly odb) node_sets →
  (b < a)%Q →
  export_temperatures os_sep os_altsep odb odb_path output_csv step_name
    node_sets field_variable (Some a) (Some b) frame_stride
    split_by_node_set initial_state = (evs, s', r) →
  r = Ok tt ∧ processed_frames evs = [] ∧ data_rows evs = [].
Proof.
  intros Hstride Hstep Hsets Hba Hrun.
  destruct (export_summary os_sep os_altsep odb odb_path output_csv step_name
              node_sets field_variable (Some a) (Some b) frame_stride
              split_by_node_set step Hstride Hstep Hsets)
    as (evs' & s'' & Hrun' & Hrows & Hframes).
  rewrite Hrun in Hrun'. injection Hrun' as <- <- ->.
  rewrite Hrows, Hframes, selected_empty_window by done. done.
Qed.

Lemma empty_window_exports_nothing_witness :
  let run :=
    export_temperatures "/" None sample_odb "Job-4.odb" "out.csv" "Gap"
      None "NT11" (Some (2 # 1)) (Some (1 # 1)) 1 false initial_state in
  run.2 = Ok tt ∧ processed_frames run.1.1 = [] ∧ data_rows run.1.1 = [].
Proof.
  intros run.
  apply (empty_window_exports_nothing "/" None sample_odb "Job-4.odb"
           "out.csv" "Gap" None "NT11" (2 # 1) (1 # 1) 1 false gap_step
           run.1.1 run.1.2 run.2).
  - lia.
  - by vm_compute.
  - apply all_sets_exist_none.
  - reflexivity.
  - by vm_compute.
Defined.

(** ** Frames that do not pass the filters *)

Lemma outside_window start_time end_time t :
  in_window start_time end_time t = false →
  before_start start_time t = false →
  after_end end_time t = true.
Proof.
  unfold in_window, before_start, after_end, Qltb.
  destruct start_time as [a|], end_time as [b|]; simpl.
  - destruct (Qle_bool a t), (Qle_bool t b); done.
  - destruct (Qle_bool a t); done.
  - destruct (Qle_bool t b); done.
  - done.
Qed.

Lemma selected_ignores_filtered start_time end_time k i pre f g post :
  (Z.of_nat (i + length pre) mod k ≠ 0)%Z
  ∨ (frameValue f = frameValue g
     ∧ in_window start_time end_time (frameValue f) = false) →
  selected_frames start_time end_time k i (pre ++ f :: post)
  = selected_frames start_time end_time k i (pre ++ g :: post).
Proof.
  revert i. induction pre as [|x pre IH]; intros i Hcase; simpl.
  - rewrite Nat.add_0_r in Hcase.
    destruct (Z.eqb_spec (Z.of_nat i mod k) 0) as [Hk|Hk]; simpl; [|done].
    destruct Hcase as [?|[Heq Hout]]; [done|]. rewrite <- Heq.
    destruct (before_start start_time (frameValue f)) eqn:Hb; [done|].
    by rewrite (outside_window _ _ _ Hout Hb).
  - simpl in Hcase. rewrite <- Nat.add_succ_comm in Hcase.
    destruct (negb _); [by apply IH|].
    destruct (before_start _ _); [by apply IH|].
    destruct (after_end _ _); [done|]. f_equal. by apply IH.
Qed.

(** X13.  A frame that fails the stride test, or whose time is outside the
    window, is not looked into: putting in its place any frame (of the same
    time, when it is the window that excludes it) leaves the run of the
    loop as it is, so what such a frame stores or lacks never matters. *)
Theorem filtered_frames_are_not_read
    field_variable step_name start_time end_time frame_stride regions
    coord_cache get_writer i pre f g post s :
  (Z.of_nat (i + length pre) mod frame_stride ≠ 0)%Z
  ∨ (frameValue f = frameValue g
     ∧ in_window start_time end_time (frameValue f) = false) →
  for_frames field_variable step_name start_time end_time frame_stride
    regions coord_cache get_writer i (pre ++ f :: post) s
  = for_frames field_variable step_name start_time end_time frame_stride
      regions coord_cache get_writer i (pre ++ g :: post) s.
Proof.
  intros Hcase. rewrite !for_frames_selected.
  by rewrite (selected_ignores_filtered _ _ _ _ _ f g).
Qed.

Lemma filtered_frames_are_not_read_witness :
  let cache := _build_coordinate_cache [part1] in
  let loop :=
    for_frames "NT11" "HeatStep" (Some (1 # 1)) None 2 None cache
               (λ _, ret 0%nat) in
  loop 0%nat ([frame_at 1] ++ frame_at 2 :: [frame_at 3]) initial_state
  = loop 0%nat ([frame_at 1] ++ mkFrame 7 ∅ :: [frame_at 3]) initial_state
  ∧ loop 0%nat ([] ++ frame_at 0 :: [frame_at 3; frame_at 4]) initial_state
    = loop 0%nat ([] ++ mkFrame 0 ∅ :: [frame_at 3; frame_at 4]) initial_state.
Proof.
  intros cache loop. split.
  - apply (filtered_frames_are_not_read "NT11" "HeatStep" (Some (1 # 1)) None
             2 None cache (λ _, ret 0%nat) 0 [frame_at 1] (frame_at 2)
             (mkFrame 7 ∅) [frame_at 3] initial_state).
    left. discriminate.
  - apply (filtered_frames_are_not_read "NT11" "HeatStep" (Some (1 # 1)) None
             2 None cache (λ _, ret 0%nat) 0 [] (frame_at 0)
             (mkFrame 0 ∅) [frame_at 3; frame_at 4] initial_state).
    right. split; reflexivity.
Defined.

(** ** The file of the single-sink mode *)

Lemma fs_run_app fs e1 e2 : fs_run fs (e1 ++ e2) = fs_run (fs_run fs e1) e2.
Proof. apply foldl_app. Qed.

Lemma fs_run_closing fs s :
  files (fs_run fs (closing_events s)) = files fs.
Proof.
  unfold closing_events. rewrite fs_run_app. simpl.
  revert fs. induction (writer_handles s) as [|[k h] l IH]; intros fs; [done|].
  simpl. by rewrite IH.
Qed.

Lemma single_loop_writes field_variable step_name coord_cache h acts s
    evs s' r :
  for_each (do_action field_variable step_name coord_cache (λ _, ret h))
           acts s = (evs, s', r) →
  Forall (λ e, (∃ i, e = EvFieldLookup i) ∨ (∃ c, e = EvWrite h (DataLine c)))
         evs.
Proof.
  revert s evs s' r. induction acts as [|a acts IH]; intros s evs s' r.
  { intros [= <- _ _]. constructor. }
  cbn [for_each]. unfold bind.
  destruct a as [i [|]|[[[i t] region_name] value]]; simpl.
  - destruct (for_each _ acts s) as [[ev2 s2] r2] eqn:Hrest.
    intros [= <- _ _]. constructor; [left; by eexists|by eapply IH].
  - intros [= <- _ _]. constructor; [left; by eexists|constructor].
  - unfold write_value, bind, lift.
    destruct (lookup_coords _ _ _) as [coords|err];
      [|intros [= <- _ _]; constructor]. simpl.
    destruct (for_each _ acts s) as [[ev2 s2] r2] eqn:Hrest.
    intros [= <- _ _]. constructor; [right; by eexists|by eapply IH].
Qed.

Lemma fs_run_handle_writes fs h p content evs :
  descriptors fs !! h = Some p →
  files fs !! p = Some content →
  Forall (λ e, (∃ i, e = EvFieldLookup i) ∨ (∃ c, e = EvWrite h (DataLine c)))
         evs →
  fs_run fs evs
  = mkFS (<[p := content ++ map DataLine (data_rows evs)]> (files fs))
         (descriptors fs).
Proof.
  intros Hd Hf Hev. revert fs content Hd Hf.
  induction Hev as [|e evs [[i ->]|[c ->]] _ IH]; intros fs content Hd Hf.
  - simpl. rewrite app_nil_r, insert_id by done. by destruct fs.
  - simpl. by apply IH.
  - change (fs_run fs (EvWrite h (DataLine c) :: evs))
      with (fs_run (fs_step fs (EvWrite h (DataLine c))) evs).
    simpl. rewrite Hd, Hf. simpl.
    rewrite (IH _ (content ++ [DataLine c])); simpl.
    + by rewrite insert_insert_eq, <- List.app_assoc.
    + done.
    + by rewrite lookup_insert_eq.
Qed.

(** X7.  In the single-sink mode a validated run opens one file, the
    output path, and leaves it closed holding the header followed by every
    data row written, in order, whether the run returns or raises in the
    loop; what the file held before is replaced and no other file is
    touched. *)
Theorem single_sink_file
    os_sep os_altsep odb odb_path output_csv step_name node_sets
    field_variable start_time end_time frame_stride step evs s' r fs :
  (1 <= frame_stride)%Z →
  steps odb !! step_name = Some step →
  all_sets_exist (rootAssembly odb) node_sets →
  export_temperatures os_sep os_altsep odb odb_path output_csv step_name
    node_sets field_variable start_time end_time frame_stride
    false initial_state = (evs, s', r) →
  opened evs = [(0%nat, output_csv)]
  ∧ files (fs_run fs evs)
    = <[output_csv := HeaderLine ["frame_index"; "step_time"; "node_set";
                                   "instance"; "node_label"; "x"; "y"; "z";
                                   field_variable]
                      :: map DataLine (data_rows evs)]> (files fs)
  ∧ descriptors (fs_run fs evs) !! 0%nat = None.
Proof.
  intros Hstride Hstep Hsets Hrun.
  rewrite (export_run _ _ _ _ _ _ _ _ _ _ _ _ step) in Hrun by done.
  destruct (for_each _ _ _) as [[loop s1] r1] eqn:Hloop.
  injection Hrun as <- <- <-. simpl in Hloop.
  pose proof (single_loop_writes _ _ _ _ _ _ _ _ _ Hloop) as Hwrites.
  pose proof (single_loop_keeps_state field_variable step_name
    (_build_coordinate_cache (instances (rootAssembly odb))) 0
    (flat_map (frame_actions field_variable
                 (regions_for (rootAssembly odb) node_sets))
       (selected_frames start_time end_time frame_stride 0 (frames step)))
    (mkState [("__all__", 0)] 1)) as Hstate.
  pose proof (single_loop_opens_nothing field_variable step_name
    (_build_coordinate_cache (instances (rootAssembly odb))) 0
    (flat_map (frame_actions field_variable
                 (regions_for (rootAssembly odb) node_sets))
       (selected_frames start_time end_time frame_stride 0 (frames step)))
    (mkState [("__all__", 0)] 1)) as Hopens.
  rewrite Hloop in Hstate, Hopens. simpl in Hstate, Hopens. subst s1.
  destruct (closing_events_quiet (mkState [("__all__", 0)] 1))
    as (Hc1 & _ & Hc3).
  simpl.
  change (EvOpenOdb odb_path
          :: EvOpen 0 output_csv
             :: EvWrite 0 (HeaderLine (header_row field_variable))
                :: loop ++ closing_events (mkState [("__all__", 0)] 1))
    with ([EvOpenOdb odb_path; EvOpen 0 output_csv;
           EvWrite 0 (HeaderLine (header_row field_variable))]
          ++ loop ++ closing_events (mkState [("__all__", 0)] 1)).
  rewrite !opened_app, !data_rows_app, Hopens, Hc1, Hc3, !fs_run_app.
  simpl. rewrite lookup_insert_eq. simpl. rewrite app_nil_r.
  rewrite (fs_run_handle_writes _ 0 output_csv
             [HeaderLine (header_row field_variable)] loop); simpl.
  - split_and!; [done| |].
    + rewrite !insert_insert_eq. reflexivity.
    + by rewrite lookup_delete_eq.
  - by rewrite lookup_insert_eq.
  - by rewrite !lookup_insert_eq.
  - done.
Qed.

Lemma single_sink_file_witness :
  let run :=
    export_temperatures "/" None sample_odb "Job-4.odb" "out.csv" "Gap"
      (Some ["A"]) "NT11" None None 1 false initial_state in
  let stale := mkFS {[ "out.csv" := [HeaderLine ["old"]] ]} ∅ in
  run.2 = Raise (SystemExit "Field 'NT11' not stored in frame 1 of step 'Gap'.")
  ∧ opened run.1.1 = [(0%nat, "out.csv")]
  ∧ files (fs_run stale run.1.1)
    = <["out.csv" := HeaderLine ["frame_index"; "step_time"; "node_set";
                                  "instance"; "node_label"; "x"; "y"; "z";
                                  "NT11"]
                     :: map DataLine (data_rows run.1.1)]> (files stale)
  ∧ descriptors (fs_run stale run.1.1) !! 0%nat = None.
Proof.
  intros run stale. split; [by vm_compute|].
  apply (single_sink_file "/" None sample_odb "Job-4.odb" "out.csv" "Gap"
           (Some ["A"]) "NT11" None None 1 gap_step run.1.1 run.1.2 run.2
           stale).
  - lia.
  - by vm_compute.
  - apply all_sets_exist_check. by vm_compute.
  - by vm_compute.
Defined.

(** ** The files of the split mode *)

Lemma rows_of_region_app region rows1 rows2 :
  rows_of_region region (rows1 ++ rows2)
  = rows_of_region region rows1 ++ rows_of_region region rows2.
Proof. apply List.filter_app. Qed.

Section SplitFiles.

Variable os_sep : ascii.
Variables base ext : string.
Variable header : list string.
Variable names : list string.
Variable orig : gmap string (list Line).
Variable field_variable : string.
Variable step_name : string.
Variable coord_cache : gmap string (gmap Z Coordinates).

Hypothesis distinct_paths :
  ∀ R R', In R names → In R' names →
          split_path os_sep base ext R = split_path os_sep base ext R' →
          R = R'.

Local Notation "'act'" :=
  (do_action field_variable step_name coord_cache
             (get_writer_split os_sep base ext header)).
Local Notation "'path_of'" := (split_path os_sep base ext).
Local Notation "'consistent'" :=
  (sinks_consistent os_sep base ext header names orig).

Lemma split_action_files a s fs prev ev1 s1 r1 :
  action_region_in names a →
  consistent s fs prev →
  act a s = (ev1, s1, r1) →
  consistent s1 (fs_run fs ev1) (prev ++ data_rows ev1).
Proof.
  intros Hin Hinv.
  destruct a as [i [|]|[[[i t] region_name] value]]; simpl.
  - intros [= <- <- <-]. simpl. by rewrite app_nil_r.
  - unfold bind, emit, raise. simpl. intros [= <- <- <-]. simpl.
    by rewrite app_nil_r.
  - unfold write_value, bind, lift.
    destruct (lookup_coords _ _ _) as [coords|e].
    2: { intros [= <- <- <-]. simpl. by rewrite app_nil_r. }
    rewrite get_writer_split_run. simpl in Hin.
    destruct Hinv as (I1 & I2 & I3).
    destruct (dict_get region_name (writer_handles s)) as [h|] eqn:Hget;
      unfold writerow, emit; simpl; intros [= <- <- <-].
    + destruct (I1 _ _ Hget) as (Hh & _ & Hd & Hne & Hf).
      simpl. rewrite Hd, Hf. simpl. split_and!.
      * intros R w HR. destruct (I1 _ _ HR) as (Hw & HinR & HdR & HneR & HfR).
        rewrite rows_of_region_app. simpl.
        destruct (String.eqb_spec region_name R) as [->|Hdiff].
        -- split_and!; [done|done|done|by destruct (rows_of_region R prev)|].
           rewrite lookup_insert_eq, map_app. simpl. done.
        -- rewrite app_nil_r. split_and!; [done..|].
           rewrite lookup_insert_ne; [done|].
           intros Heq. apply Hdiff. by apply distinct_paths.
      * intros R HR. rewrite rows_of_region_app, (I2 R HR). simpl.
        destruct (String.eqb_spec region_name R) as [->|?]; [congruence|done].
      * intros p Hp. simpl. rewrite lookup_insert_ne; [by apply I3|].
        intros Heq. eapply Hp; [by eexists|by symmetry].
    + simpl. rewrite lookup_insert_eq. simpl.
      rewrite !lookup_insert_eq. simpl. split_and!.
      * intros R w. cbn [writer_handles next_handle files descriptors].
        rewrite dict_get_set, rows_of_region_app. simpl.
        destruct (String.eqb_spec R region_name) as [->|Hdiff].
        -- intros [= <-]. rewrite String.eqb_refl, (I2 _ Hget). simpl.
           split_and!; [lia|done| |done|].
           ++ by rewrite lookup_insert_eq.
           ++ by rewrite !insert_insert_eq, lookup_insert_eq.
        -- intros HR. destruct (I1 _ _ HR) as (Hw & HinR & HdR & HneR & HfR).
           destruct (String.eqb_spec region_name R) as [?|_]; [congruence|].
           rewrite app_nil_r.
           assert (path_of region_name ≠ path_of R) as Hpath
             by (intros Heq; apply Hdiff; symmetry; by apply distinct_paths).
           split_and!; [lia|done| |done|].
           ++ rewrite lookup_insert_ne by lia. done.
           ++ by rewrite !lookup_insert_ne.
      * intros R. cbn [writer_handles next_handle files descriptors].
        rewrite dict_get_set, rows_of_region_app.
        destruct (String.eqb_spec R region_name) as [->|Hdiff]; [done|].
        intros HR. rewrite (I2 R HR). simpl.
        destruct (String.eqb_spec region_name R) as [?|_]; [congruence|done].
      * intros p. cbn [writer_handles next_handle files descriptors].
        intros Hp.
        assert (path_of region_name ≠ p) as Hnew.
        { intros Heq. eapply (Hp region_name); [|by symmetry].
          rewrite dict_get_set, String.eqb_refl. by eexists. }
        rewrite !lookup_insert_ne by done. apply I3.
        intros R [w HR]. apply Hp. rewrite dict_get_set.
        destruct (String.eqb_spec R region_name) as [->|?]; [congruence|].
        by eexists.
Qed.

Lemma split_loop_files acts s fs prev evs s' r :
  Forall (action_region_in names) acts →
  consistent s fs prev →
  for_each act acts s = (evs, s', r) →
  consistent s' (fs_run fs evs) (prev ++ data_rows evs).
Proof.
  intros Hacts. revert s fs prev evs s' r.
  induction Hacts as [|a acts Ha _ IH]; intros s fs prev evs s' r Hinv.
  { intros [= <- <- <-]. simpl. by rewrite app_nil_r. }
  cbn [for_each]. unfold bind.
  destruct (act a s) as [[ev1 s1] r1] eqn:Hstep.
  pose proof (split_action_files _ _ _ _ _ _ _ Ha Hinv Hstep) as Hinv1.
  destruct r1 as [[]|e]; [|by intros [= <- <- <-]].
  destruct (for_each act acts s1) as [[ev2 s2] r2] eqn:Hrest.
  intros [= <- <- <-].
  rewrite fs_run_app, data_rows_app, List.app_assoc. by eapply IH.
Qed.

End SplitFiles.

Lemma frame_actions_regions field_variable regions selection :
  Forall (action_region_in (region_names regions))
         (flat_map (frame_actions field_variable regions) selection).
Proof.
  apply List.Forall_forall. intros a Ha.
  apply in_flat_map in Ha as ([i frame] & _ & Ha).
  unfold frame_actions in Ha. simpl in Ha.
  destruct (fieldOutputs frame !! field_variable) as [field|].
  - destruct Ha as [<-|Ha]; [done|].
    apply in_map_iff in Ha as (item & <- & Hitem). simpl.
    unfold frame_items in Hitem.
    destruct (region_items_order [] i (frameValue frame)
                (region_iter regions field)) as [_ H].
    destruct (H item Hitem) as [_ [q Hq]].
    rewrite region_iter_names in Hq.
    by eapply list_elem_of_In, list_elem_of_lookup_2.
  - by destruct Ha as [<-|[]].
Qed.

(** X8.  In split mode, when the regions of the run have pairwise distinct
    file paths, a validated run leaves, for each region with at least one
    row, a file at the path of the region holding the header followed by
    the rows of that region, in the order they were written; the path of a
    region without rows is left as it was.  This holds whether the run
    returns or raises in the loop. *)
Theorem split_sink_files
    os_sep os_altsep odb odb_path output_csv step_name node_sets
    field_variable start_time end_time frame_stride step evs s' r fs :
  let path_of := λ R,
    (splitext os_sep os_altsep output_csv).1 +:+ "__"
    +:+ replace " " "_" (replace os_sep "_" R)
    +:+ (if String.eqb (splitext os_sep os_altsep output_csv).2 ""
         then ".csv" else (splitext os_sep os_altsep output_csv).2) in
  let names := region_names (regions_for (rootAssembly odb) node_sets) in
  (1 <= frame_stride)%Z →
  steps odb !! step_name = Some step →
  all_sets_exist (rootAssembly odb) node_sets →
  (∀ R R', In R names → In R' names → path_of R = path_of R' → R = R') →
  export_temperatures os_sep os_altsep odb odb_path output_csv step_name
    node_sets field_variable start_time end_time frame_stride
    true initial_state = (evs, s', r) →
  ∀ R, In R names →
       files (fs_run fs evs) !! path_of R
       = match rows_of_region R (data_rows evs) with
         | [] => files fs !! path_of R
         | rows =>
             Some (HeaderLine ["frame_index"; "step_time"; "node_set";
                               "instance"; "node_label"; "x"; "y"; "z";
                               field_variable]
                   :: map DataLine rows)
         end.
Proof.
  intros path_of names Hstride Hstep Hsets Hdistinct Hrun R HR.
  assert (∀ x, path_of x
               = split_path os_sep (splitext os_sep os_altsep output_csv).1
                   (output_extension (splitext os_sep os_altsep output_csv).2)
                   x) as Hpath by done.
  assert (∀ x y, In x names → In y names →
                 split_path os_sep (splitext os_sep os_altsep output_csv).1
                   (output_extension (splitext os_sep os_altsep output_csv).2)
                   x
                 = split_path os_sep (splitext os_sep os_altsep output_csv).1
                     (output_extension
                        (splitext os_sep os_altsep output_csv).2) y →
                 x = y) as Hdistinct'
    by (intros x y Hx Hy Heq; apply Hdistinct; [done..|by rewrite !Hpath]).
  rewrite !Hpath. clear Hdistinct Hpath path_of.
  rewrite (export_run _ _ _ _ _ _ _ _ _ _ _ _ step) in Hrun by done.
  destruct (for_each _ _ _) as [[loop s1] r1] eqn:Hloop.
  injection Hrun as <- <- <-. simpl in Hloop. simpl.
  destruct (closing_events_quiet s1) as (Hc & _ & _).
  rewrite data_rows_app, Hc, app_nil_r.
  rewrite fs_run_app, fs_run_closing.
  assert (sinks_consistent os_sep (splitext os_sep os_altsep output_csv).1
            (output_extension (splitext os_sep os_altsep output_csv).2)
            (header_row field_variable) names (files fs) initial_state fs [])
    as Hstart by (by split_and!).
  destruct (split_loop_files os_sep
              (splitext os_sep os_altsep output_csv).1
              (output_extension (splitext os_sep os_altsep output_csv).2)
              (header_row field_variable) names (files fs) field_variable
              step_name
              (_build_coordinate_cache (instances (rootAssembly odb)))
              Hdistinct' _ initial_state fs [] loop s1 r1
              (frame_actions_regions _ _ _) Hstart Hloop) as (I1 & I2 & I3).
  simpl in I1, I2, I3.
  destruct (dict_get R (writer_handles s1)) as [h|] eqn:Hget.
  - destruct (I1 _ _ Hget) as (_ & _ & _ & Hne & Hf).
    rewrite Hf. by destruct (rows_of_region R (data_rows loop)).
  - rewrite (I2 _ Hget). apply I3. intros R' [w HR'] Heq.
    destruct (I1 _ _ HR') as (_ & HinR' & _).
    assert (R = R') as -> by by apply Hdistinct'.
    congruence.
Qed.

Lemma split_sink_files_witness :
  let run :=
    export_temperatures "/" None sample_odb "Job-4.odb" "out.csv" "Gap"
      (Some ["B"; "A"]) "NT11" None None 1 true initial_state in
  files (fs_run empty_fs run.1.1) !! "out__A.csv"
  = Some [HeaderLine (header_row "NT11");
          DataLine [CInt 0; CFloat 0; CStr "A"; CStr "PART-1"; CInt 7;
                    CFloat 1; CFloat 2; CFloat 3; CFloat (701 # 2)]]
  ∧ ∀ R, In R ["B"; "A"] →
         files (fs_run empty_fs run.1.1)
         !! ("out" +:+ "__" +:+ replace " " "_" (replace "/" "_" R) +:+ ".csv")
         = match rows_of_region R (data_rows run.1.1) with
           | [] => files empty_fs
                   !! ("out" +:+ "__" +:+ replace " " "_" (replace "/" "_" R)
                       +:+ ".csv")
           | rows =>
               Some (HeaderLine ["frame_index"; "step_time"; "node_set";
                                 "instance"; "node_label"; "x"; "y"; "z";
                                 "NT11"]
                     :: map DataLine rows)
           end.
Proof.
  intros run. split; [by vm_compute|].
  apply (split_sink_files "/" None sample_odb "Job-4.odb" "out.csv" "Gap"
           (Some ["B"; "A"]) "NT11" None None 1 gap_step run.1.1 run.1.2
           run.2 empty_fs).
  - lia.
  - by vm_compute.
  - apply all_sets_exist_check. by vm_compute.
  - intros R R' [<-|[<-|[]]] [<-|[<-|[]]]; vm_compute; congruence.
  - by vm_compute.
Defined.

(** * The frames the loop reaches *)

(** ** The selection of the loop, without the loop *)

Lemma selected_reached_from k start_time end_time i frames :
  selected_frames start_time end_time k i frames
  = List.filter (passes k start_time end_time)
      (before_first (ends_extraction k start_time end_time)
                    (enumerate_from i frames)).
Proof.
  revert i. induction frames as [|f frames IH]; intros i; [done|].
  cbn [selected_frames enumerate_from before_first].
  assert (ends_extraction k start_time end_time (i, f)
          = (Z.of_nat i mod k =? 0)%Z
            && negb (before_start start_time (frameValue f))
            && after_end end_time (frameValue f)) as ->.
  { unfold ends_extraction, stride_ok, before_start, after_end, Qltb. simpl.
    destruct start_time, end_time; simpl; by rewrite ?negb_involutive. }
  assert (passes k start_time end_time (i, f)
          = (Z.of_nat i mod k =? 0)%Z
            && negb (before_start start_time (frameValue f))
            && negb (after_end end_time (frameValue f))) as Hpass.
  { unfold passes, stride_ok, in_window, before_start, after_end, Qltb. simpl.
    destruct start_time, end_time; simpl;
      by rewrite ?negb_involutive, ?andb_true_r, ?andb_assoc. }
  destruct (Z.of_nat i mod k =? 0)%Z; simpl in *.
  2: { rewrite Hpass. apply IH. }
  destruct (before_start start_time (frameValue f)); simpl in *.
  { rewrite Hpass. apply IH. }
  destruct (after_end end_time (frameValue f)); simpl in *; [done|].
  rewrite Hpass. by rewrite IH.
Qed.

Lemma selected_reached k start_time end_time frames :
  selected_frames start_time end_time k 0 frames
  = reached_frames k start_time end_time frames.
Proof. apply selected_reached_from. Qed.

(** On a step whose frame times never decrease the frames reached are the
    frames that pass the two filters. *)
Lemma reached_frames_ordered k start_time end_time frames :
  time_ordered frames →
  reached_frames k start_time end_time frames
  = passing_frames k start_time end_time frames.
Proof.
  intros Hord. rewrite <- selected_reached. by apply selected_passing.
Qed.

Lemma In_before_first_enumerate {A} (p : nat * A → bool) i (l : list A) entry :
  In entry (before_first p (enumerate_from i l))
  ↔ In entry (enumerate_from i l)
    ∧ ∀ other, In other (enumerate_from i l) → (other.1 <= entry.1)%nat →
               p other = false.
Proof.
  revert i. induction l as [|y l IH]; intros i; simpl; [by split; [|intros []]|].
  destruct (p (i, y)) eqn:Hp; simpl.
  - split; [done|]. intros [Hin Hall].
    rewrite (Hall (i, y)) in Hp; [done|by left|].
    destruct Hin as [<-|Hin]; [done|].
    apply enumerate_from_bound in Hin. simpl. lia.
  - rewrite IH. split.
    + intros [<-|[Hin Hall]].
      * split; [by left|]. intros other [<-|Hother] Hle; [done|].
        apply enumerate_from_bound in Hother. simpl in Hle. lia.
      * split; [by right|]. intros other [<-|Hother] Hle; [done|].
        by apply Hall.
    + intros [[<-|Hin] Hall]; [by left|]. right. split; [done|].
      intros other Hother Hle. apply Hall; [by right|done].
Qed.

(** A frame is reached when it passes the two filters and no frame before
    it ends the extraction. *)
Lemma In_reached_frames k start_time end_time frames i frame :
  In (i, frame) (reached_frames k start_time end_time frames)
  ↔ frames !! i = Some frame
    ∧ passes k start_time end_time (i, frame) = true
    ∧ ∀ j g, (j < i)%nat → frames !! j = Some g →
             ends_extraction k start_time end_time (j, g) = false.
Proof.
  unfold reached_frames.
  rewrite filter_In, In_before_first_enumerate, In_enumerate_from, Nat.sub_0_r.
  split.
  - intros [[[_ Hi] Hall] Hpass]. split_and!; [done..|].
    intros j g Hlt Hj. apply (Hall (j, g)); [|simpl; lia].
    apply In_enumerate_from. split; [lia|]. by rewrite Nat.sub_0_r.
  - intros (Hi & Hpass & Hall). split_and!; [lia|done| |done].
    intros [j g] Hin Hle. apply In_enumerate_from in Hin as [_ Hj].
    rewrite Nat.sub_0_r in Hj. simpl in Hle.
    destruct (decide (j = i)) as [->|Hne]; [|apply Hall; [lia|done]].
    assert (g = frame) as -> by congruence.
    unfold passes, in_window in Hpass. unfold ends_extraction.
    apply andb_true_iff in Hpass as [-> Hwindow]. simpl in *.
    apply andb_true_iff in Hwindow as [_ Hend].
    destruct end_time as [b|]; [|by rewrite andb_false_r].
    rewrite Hend. by rewrite andb_false_r.
Qed.

Lemma resolved_regions root_assembly names field :
  (∀ set_name, In set_name names →
               is_Some (nodeSets root_assembly !! set_name)) →
  map (λ node_set, (node_set_name node_set, getSubset field (Some node_set)))
      (resolved_sets root_assembly names)
  = omap (λ set_name,
            match nodeSets root_assembly !! set_name with
            | Some node_set =>
                Some (node_set_name node_set, getSubset field (Some node_set))
            | None => None
            end) names.
Proof.
  induction names as [|n names IH]; intros Hall; [done|].
  destruct (Hall n) as [node_set Hn]; [by left|].
  unfold resolved_sets. simpl. rewrite Hn. simpl. f_equal.
  apply IH. intros. apply Hall. by right.
Qed.

Lemma region_iter_requested root_assembly node_sets field :
  all_sets_exist root_assembly node_sets →
  region_iter (regions_for root_assembly node_sets) field
  = requested_regions root_assembly node_sets field.
Proof.
  intros Hall. destruct node_sets as [[|n ns]|]; [done| |done].
  unfold regions_for, requested_regions.
  rewrite <- resolved_regions by (intros; by eapply Hall).
  destruct (Hall (n :: ns) n) as [node_set Hn]; [done|by left|].
  unfold region_iter, resolved_sets. simpl. by rewrite Hn.
Qed.

Lemma work_items_expected root_assembly node_sets field_variable selection :
  all_sets_exist root_assembly node_sets →
  work_items field_variable (regions_for root_assembly node_sets) selection
  = expected_items root_assembly node_sets field_variable selection.
Proof.
  intros Hall. unfold work_items, expected_items. apply flat_map_ext.
  intros [i frame].
  destruct (fieldOutputs frame !! field_variable) as [field|]; [|done].
  unfold frame_items. by rewrite region_iter_requested.
Qed.

(** ** Runs up to the first fault *)

Section Faults.

Variable field_variable : string.
Variable step_name : string.
Variable regions : option (list OdbSet).
Variable coord_cache : gmap string (gmap Z Coordinates).

Local Notation "'outcome_of'" := (outcome field_variable step_name coord_cache).
Local Notation "'rows'" := (rows_of field_variable step_name coord_cache).
Local Notation "'touched'" := (frames_of field_variable step_name coord_cache).
Local Notation "'actions'" := (frame_actions field_variable regions).
Local Notation "'items_of'" := (work_items field_variable regions).

(** Frames that store the field and whose values all have coordinates are
    worked through to the end. *)
Lemma clean_selection selection :
  (∀ entry, In entry selection →
            is_Some (fieldOutputs entry.2 !! field_variable)) →
  Forall (has_coordinates coord_cache) (items_of selection) →
  outcome_of (flat_map actions selection) = Ok tt
  ∧ Forall2 (row_matches coord_cache) (rows (flat_map actions selection))
            (items_of selection)
  ∧ touched (flat_map actions selection) = map fst selection.
Proof.
  intros Hfields Hcoords.
  destruct (selection_rows field_variable step_name regions coord_cache
              selection)
    as (items1 & items2 & Hitems & Hmatch & _ & Hfirst).
  specialize (Hfirst Hfields).
  destruct items2 as [|bad items2].
  - rewrite app_nil_r in Hitems. rewrite Hitems. split_and!; [done..|].
    destruct (frames_of_selection field_variable step_name regions coord_cache
                selection) as (rest & Heq & Hrest).
    rewrite (Hrest Hfirst), app_nil_r in Heq. done.
  - exfalso. destruct Hfirst as (e & Hbad & _).
    rewrite Hitems in Hcoords. apply Forall_app in Hcoords as [_ Hcoords].
    apply Forall_cons in Hcoords as [[c Hc] _]. congruence.
Qed.

(** The values of a frame are written up to the first one without
    coordinates, whose [KeyError] ends the work. *)
Lemma values_up_to_fault (before : list Item) (bad : Item)
    (after : list Item) e :
  Forall (has_coordinates coord_cache) before →
  lookup_coords coord_cache (name (instance bad.2)) (nodeLabel bad.2)
  = Raise e →
  outcome_of (map AValue (before ++ bad :: after)) = Raise e
  ∧ Forall2 (row_matches coord_cache)
            (rows (map AValue (before ++ bad :: after))) before.
Proof.
  intros Hbefore Hbad. induction Hbefore as [|item before [c Hc] _ [IH1 IH2]].
  - destruct bad as [[[i t] region_name] value]. simpl in *. rewrite Hbad.
    split; [done|constructor].
  - destruct item as [[[i t] region_name] value]. simpl in *. rewrite Hc.
    split; [done|]. constructor; [|done].
    destruct c as [[x y] z]. by exists x, y, z.
Qed.

(** A selection whose first fault is a frame without the field. *)
Lemma selection_up_to_gap before entry after :
  (∀ e, In e before → is_Some (fieldOutputs e.2 !! field_variable)) →
  Forall (has_coordinates coord_cache) (items_of before) →
  fieldOutputs entry.2 !! field_variable = None →
  outcome_of (flat_map actions (before ++ entry :: after))
  = Raise (SystemExit (field_not_stored field_variable entry.1 step_name))
  ∧ Forall2 (row_matches coord_cache)
            (rows (flat_map actions (before ++ entry :: after)))
            (items_of before)
  ∧ touched (flat_map actions (before ++ entry :: after))
    = map fst before ++ [entry.1].
Proof.
  intros Hfields Hcoords Hnone.
  destruct (clean_selection before Hfields Hcoords) as (Hok & Hrows & Htouch).
  destruct (frame_without_field field_variable step_name regions coord_cache
              entry Hnone) as [Hout Hnorow].
  rewrite flat_map_app. simpl.
  rewrite !outcome_app, !rows_of_app, !frames_of_app, Hok, Hout, Hnorow, Htouch.
  rewrite frames_of_frame. simpl. rewrite !app_nil_r. done.
Qed.

(** A selection whose first fault is a value without coordinates. *)
Lemma selection_up_to_stray before entry after field (here : list Item)
    (bad : Item) (later : list Item) e :
  (∀ x, In x before → is_Some (fieldOutputs x.2 !! field_variable)) →
  Forall (has_coordinates coord_cache) (items_of before) →
  fieldOutputs entry.2 !! field_variable = Some field →
  frame_items regions entry.1 entry.2 field = here ++ bad :: later →
  Forall (has_coordinates coord_cache) here →
  lookup_coords coord_cache (name (instance bad.2)) (nodeLabel bad.2)
  = Raise e →
  outcome_of (flat_map actions (before ++ entry :: after)) = Raise e
  ∧ Forall2 (row_matches coord_cache)
            (rows (flat_map actions (before ++ entry :: after)))
            (items_of before ++ here)
  ∧ touched (flat_map actions (before ++ entry :: after))
    = map fst before ++ [entry.1].
Proof.
  intros Hfields Hcoords Hfield Hhere Hclean Hbad.
  destruct (clean_selection before Hfields Hcoords) as (Hok & Hrows & Htouch).
  destruct (frame_with_field field_variable step_name regions coord_cache
              entry field Hfield) as [Hout Hframe].
  destruct (values_up_to_fault here bad later e Hclean Hbad) as [Hraise Hwritten].
  rewrite Hhere in Hout, Hframe.
  rewrite flat_map_app. simpl.
  rewrite !outcome_app, !rows_of_app, !frames_of_app, Hok, Hout, Hframe, Htouch.
  rewrite Hraise, frames_of_frame. simpl. rewrite !app_nil_r.
  split_and!; [done| |done]. by apply Forall2_app.
Qed.

End Faults.

Lemma reached_indices_sorted k start_time end_time frames :
  StronglySorted lt (map fst (reached_frames k start_time end_time frames)).
Proof. rewrite <- selected_reached. apply selected_indices_sorted. Qed.

(** ** A frame without the field *)

(** C8.  When the loop reaches a frame that does not store the requested
    field (the frame passes the stride and window filters and no frame
    before it ends the extraction) and nothing failed before it (the reached
    frames before it store the field and their values have coordinates), the
    run raises the "not stored" error that names this frame and the step.
    The frames consulted are the reached frames up to this one, none after
    it, and the rows written are those of the frames before it. *)
Theorem missing_field_aborts_the_run
    os_sep os_altsep odb odb_path output_csv step_name node_sets
    field_variable start_time end_time frame_stride split_by_node_set
    step before i frame after evs s' r :
  let cache := _build_coordinate_cache (instances (rootAssembly odb)) in
  let earlier :=
    expected_items (rootAssembly odb) node_sets field_variable before in
  (1 <= frame_stride)%Z →
  steps odb !! step_name = Some step →
  all_sets_exist (rootAssembly odb) node_sets →
  reached_frames frame_stride start_time end_time (frames step)
  = before ++ (i, frame) :: after →
  fieldOutputs frame !! field_variable = None →
  (∀ entry, In entry before →
            is_Some (fieldOutputs entry.2 !! field_variable)) →
  Forall (has_coordinates cache) earlier →
  export_temperatures os_sep os_altsep odb odb_path output_csv step_name
    node_sets field_variable start_time end_time frame_stride
    split_by_node_set initial_state = (evs, s', r) →
  r = Raise (SystemExit
               ("Field '" +:+ field_variable +:+ "' not stored in frame "
                +:+ str_nat i +:+ " of step '" +:+ step_name +:+ "'."))
  ∧ processed_frames evs = map fst before ++ [i]
  ∧ (∀ j, In j (processed_frames evs) → (j <= i)%nat)
  ∧ Forall2 (row_matches cache) (data_rows evs) earlier
  ∧ (∀ cells, In cells (data_rows evs) →
              ∃ j, row_frame cells = Some (Z.of_nat j) ∧ (j < i)%nat).
Proof.
  intros cache earlier Hstride Hstep Hsets Hreached Hnone Hfields Hcoords Hrun.
  subst cache earlier.
  destruct (export_summary os_sep os_altsep odb odb_path output_csv step_name
              node_sets field_variable start_time end_time frame_stride
              split_by_node_set step Hstride Hstep Hsets)
    as (evs' & s'' & Hrun' & Hrows & Hframes).
  rewrite Hrun in Hrun'. injection Hrun' as <- <- ->.
  rewrite Hrows, Hframes, selected_reached, Hreached.
  pose proof (reached_indices_sorted frame_stride start_time end_time
                (frames step)) as Hsorted.
  rewrite Hreached in Hsorted.
  rewrite <- work_items_expected in * by done.
  destruct (selection_up_to_gap field_variable step_name
              (regions_for (rootAssembly odb) node_sets)
              (_build_coordinate_cache (instances (rootAssembly odb)))
              before (i, frame) after Hfields Hcoords Hnone)
    as (-> & Hmatch & ->).
  split_and!; [done|done| |done|].
  - intros j Hj. apply in_app_or in Hj as [Hj|[<-|[]]]; [|done].
    apply in_map_iff in Hj as (e & <- & He).
    pose proof (sorted_split_before _ _ _ _ Hsorted He). simpl in *. lia.
  - intros cells Hcells.
    destruct (Forall2_In_l _ _ _ _ Hmatch Hcells) as (item & Hitem & Hrow).
    destruct (In_work_items _ _ _ _ Hitem) as (e & He & Hidx).
    exists item.1.1.1. split; [by eapply row_matches_frame|].
    rewrite Hidx. apply (sorted_split_before _ _ _ _ Hsorted He).
Qed.

(** The third frame of the step has no field and the fourth a value without
    coordinates; the times are not ordered.  The run ends at the third
    frame. *)
Lemma missing_field_aborts_the_run_witness :
  let run :=
    export_temperatures "/" None faulty_odb "Job-4.odb" "out.csv"
      "GapThenStray" (Some ["B"; "A"]) "NT11" None None 1 false
      initial_state in
  let cache := _build_coordinate_cache (instances sample_assembly) in
  run.2 = Raise (SystemExit
            "Field 'NT11' not stored in frame 1 of step 'GapThenStray'.")
  ∧ data_rows run.1.1
    = [[CInt 0; CFloat 3; CStr "B"; CStr "PART-1"; CInt 8;
        CFloat 0; CFloat 0; CFloat 0; CFloat (300 # 1)];
       [CInt 0; CFloat 3; CStr "A"; CStr "PART-1"; CInt 7;
        CFloat 1; CFloat 2; CFloat 3; CFloat (701 # 2)]]
  ∧ run.2 = Raise (SystemExit
              ("Field '" +:+ "NT11" +:+ "' not stored in frame "
               +:+ str_nat 1 +:+ " of step '" +:+ "GapThenStray" +:+ "'."))
  ∧ processed_frames run.1.1 = map fst [(0%nat, frame_at 3)] ++ [1%nat]
  ∧ (∀ j, In j (processed_frames run.1.1) → (j <= 1)%nat)
  ∧ Forall2 (row_matches cache) (data_rows run.1.1)
      (expected_items sample_assembly (Some ["B"; "A"]) "NT11"
                      [(0%nat, frame_at 3)])
  ∧ (∀ cells, In cells (data_rows run.1.1) →
              ∃ j, row_frame cells = Some (Z.of_nat j) ∧ (j < 1)%nat).
Proof.
  intros run cache. split; [by vm_compute|]. split; [by vm_compute|].
  apply (missing_field_aborts_the_run "/" None faulty_odb "Job-4.odb"
           "out.csv" "GapThenStray" (Some ["B"; "A"]) "NT11" None None 1 false
           gap_then_stray_step [(0%nat, frame_at 3)] 1%nat (mkFrame 1 ∅)
           [(2%nat, mkFrame 2 {[ "NT11" := field_on [stray_value] ]})]
           run.1.1 run.1.2 run.2).
  - lia.
  - by vm_compute.
  - apply all_sets_exist_check. by vm_compute.
  - reflexivity.
  - reflexivity.
  - apply stores_field_check. by vm_compute.
  - apply has_coordinates_check. by vm_compute.
  - by vm_compute.
Defined.

(** A frame that passes both filters and lacks the field does not always
    bring the "not stored" error.  With an end time of 5 and frame times 0,
    9, 1, the third frame has index 2 (a multiple of the stride 1) and time
    1 within the window and does not store the field: the run returns
    without any error, the loop having stopped at the second frame.  With
    frame times 3, 1, 2 and no window, the third frame does not store the
    field either, and the run ends before it with the [KeyError] of a value
    of the second frame. *)
Lemma missing_field_is_not_always_reported :
  (let run :=
     export_temperatures "/" None faulty_odb "Job-4.odb" "out.csv" "LateGap"
       None "NT11" None (Some (5 # 1)) 1 false initial_state in
   steps faulty_odb !! "LateGap" = Some late_gap_step
   ∧ frames late_gap_step !! 2%nat = Some (mkFrame 1 ∅)
   ∧ In (2%nat, mkFrame 1 ∅)
        (passing_frames 1 None (Some (5 # 1)) (frames late_gap_step))
   ∧ fieldOutputs (mkFrame 1 ∅) !! "NT11" = None
   ∧ run.2 = Ok tt
   ∧ processed_frames run.1.1 = [0%nat])
  ∧ (let run :=
       export_temperatures "/" None faulty_odb "Job-4.odb" "out.csv"
         "StrayThenGap" None "NT11" None None 1 false initial_state in
     steps faulty_odb !! "StrayThenGap" = Some stray_then_gap_step
     ∧ In (2%nat, mkFrame 2 ∅)
          (passing_frames 1 None None (frames stray_then_gap_step))
     ∧ fieldOutputs (mkFrame 2 ∅) !! "NT11" = None
     ∧ run.2 = Raise (KeyError (KInt 9))
     ∧ processed_frames run.1.1 = [0%nat; 1%nat]).
Proof.
  split.
  - intros run. split_and!; try (by vm_compute).
    vm_compute. right. by left.
  - intros run. split_and!; try (by vm_compute).
    vm_compute. right. right. by left.
Qed.

(** ** A value without coordinates *)

(** C9.  When the loop reaches a value whose instance name and node label
    have no entry in the coordinate cache (its frame is reached, that frame
    and the reached frames before it store the field, and the values before
    it, in those frames and in its own, have coordinates), the run raises
    the [KeyError] of the failed lookup.  The rows written are exactly those
    of the values before it: none for this value, none for a later value of
    the frame, none for a later frame, and no later frame is consulted. *)
Theorem missing_coordinate_aborts_the_run
    os_sep os_altsep odb odb_path output_csv step_name node_sets
    field_variable start_time end_time frame_stride split_by_node_set
    step before i frame after (here : list Item) (bad : Item)
    (later : list Item) evs s' r :
  let cache := _build_coordinate_cache (instances (rootAssembly odb)) in
  let earlier :=
    expected_items (rootAssembly odb) node_sets field_variable before in
  (1 <= frame_stride)%Z →
  steps odb !! step_name = Some step →
  all_sets_exist (rootAssembly odb) node_sets →
  reached_frames frame_stride start_time end_time (frames step)
  = before ++ (i, frame) :: after →
  (∀ entry, In entry before →
            is_Some (fieldOutputs entry.2 !! field_variable)) →
  Forall (has_coordinates cache) earlier →
  expected_items (rootAssembly odb) node_sets field_variable [(i, frame)]
  = here ++ bad :: later →
  Forall (has_coordinates cache) here →
  ¬ has_coordinates cache bad →
  export_temperatures os_sep os_altsep odb odb_path output_csv step_name
    node_sets field_variable start_time end_time frame_stride
    split_by_node_set initial_state = (evs, s', r) →
  ∃ key,
    lookup_coords cache (name (instance bad.2)) (nodeLabel bad.2)
    = Raise (KeyError key)
    ∧ (key = KStr (name (instance bad.2)) ∨ key = KInt (nodeLabel bad.2))
    ∧ r = Raise (KeyError key)
    ∧ Forall2 (row_matches cache) (data_rows evs) (earlier ++ here)
    ∧ processed_frames evs = map fst before ++ [i].
Proof.
  intros cache earlier Hstride Hstep Hsets Hreached Hfields Hcoords Hhere
         Hclean Hbad Hrun.
  subst cache earlier.
  destruct (export_summary os_sep os_altsep odb odb_path output_csv step_name
              node_sets field_variable start_time end_time frame_stride
              split_by_node_set step Hstride Hstep Hsets)
    as (evs' & s'' & Hrun' & Hrows & Hframes).
  rewrite Hrun in Hrun'. injection Hrun' as <- <- ->.
  rewrite Hrows, Hframes, selected_reached, Hreached.
  rewrite <- work_items_expected in * by done.
  destruct (fieldOutputs frame !! field_variable) as [field|] eqn:Hfield.
  2: { unfold work_items in Hhere. simpl in Hhere. rewrite Hfield in Hhere.
       by destruct here. }
  assert (frame_items (regions_for (rootAssembly odb) node_sets) i frame field
          = here ++ bad :: later) as Hitems.
  { unfold work_items in Hhere. simpl in Hhere. rewrite Hfield in Hhere.
    by rewrite app_nil_r in Hhere. }
  destruct (lookup_coords
              (_build_coordinate_cache (instances (rootAssembly odb)))
              (name (instance bad.2)) (nodeLabel bad.2)) as [c|e] eqn:Hlookup.
  { exfalso. apply Hbad. by exists c. }
  destruct (selection_up_to_stray field_variable step_name
              (regions_for (rootAssembly odb) node_sets)
              (_build_coordinate_cache (instances (rootAssembly odb)))
              before (i, frame) after field here bad later e
              Hfields Hcoords Hfield Hitems Hclean Hlookup)
    as (-> & Hmatch & ->).
  destruct (lookup_coords_raise _ _ _ _ Hlookup) as [->| ->].
  - exists (KStr (name (instance bad.2))). split_and!; [done|by left|done..].
  - exists (KInt (nodeLabel bad.2)). split_and!; [done|by right|done..].
Qed.

(** The second frame holds a value on node 9, which the part does not have,
    between two values that have coordinates; the frame after it has no
    field and the times are not ordered.  The run ends at that value. *)
Lemma missing_coordinate_aborts_the_run_witness :
  let run :=
    export_temperatures "/" None faulty_odb "Job-4.odb" "out.csv"
      "StrayThenGap" None "NT11" None None 1 false initial_state in
  let cache := _build_coordinate_cache (instances sample_assembly) in
  let bad : Item := (1%nat, 1%Q, "ALL", stray_value) in
  run.2 = Raise (KeyError (KInt 9))
  ∧ data_rows run.1.1
    = [[CInt 0; CFloat 3; CStr "ALL"; CStr "PART-1"; CInt 7;
        CFloat 1; CFloat 2; CFloat 3; CFloat (701 # 2)];
       [CInt 0; CFloat 3; CStr "ALL"; CStr "PART-1"; CInt 8;
        CFloat 0; CFloat 0; CFloat 0; CFloat (300 # 1)];
       [CInt 1; CFloat 1; CStr "ALL"; CStr "PART-1"; CInt 7;
        CFloat 1; CFloat 2; CFloat 3; CFloat (701 # 2)]]
  ∧ ∃ key,
      lookup_coords cache (name (instance bad.2)) (nodeLabel bad.2)
      = Raise (KeyError key)
      ∧ (key = KStr (name (instance bad.2)) ∨ key = KInt (nodeLabel bad.2))
      ∧ run.2 = Raise (KeyError key)
      ∧ Forall2 (row_matches cache) (data_rows run.1.1)
          (expected_items sample_assembly None "NT11" [(0%nat, frame_at 3)]
           ++ [(1%nat, 1%Q, "ALL", value7)])
      ∧ processed_frames run.1.1 = map fst [(0%nat, frame_at 3)] ++ [1%nat].
Proof.
  intros run cache bad. split; [by vm_compute|]. split; [by vm_compute|].
  apply (missing_coordinate_aborts_the_run "/" None faulty_odb "Job-4.odb"
           "out.csv" "StrayThenGap" None "NT11" None None 1 false
           stray_then_gap_step [(0%nat, frame_at 3)] 1%nat
           (mkFrame 1 {[ "NT11" := field_on [value7; stray_value; value8] ]})
           [(2%nat, mkFrame 2 ∅)]
           [(1%nat, 1%Q, "ALL", value7)] bad [(1%nat, 1%Q, "ALL", value8)]
           run.1.1 run.1.2 run.2).
  - lia.
  - by vm_compute.
  - apply all_sets_exist_none.
  - reflexivity.
  - apply stores_field_check. by vm_compute.
  - apply has_coordinates_check. by vm_compute.
  - reflexivity.
  - apply has_coordinates_check. by vm_compute.
  - intros [coords Hc]. vm_compute in Hc. discriminate Hc.
  - by vm_compute.
Defined.

(** * Rows and the header of their sink *)

Lemma opened_with_header_app header past more h :
  opened_with_header header past h →
  opened_with_header header (past ++ more) h.
Proof.
  intros (a & p & b & ->). exists a, p, (b ++ more).
  by rewrite <- app_assoc.
Qed.

Lemma closing_events_write_nothing s h line :
  ¬ In (EvWrite h line) (closing_events s).
Proof.
  unfold closing_events. intros Hin. apply in_app_or in Hin as [Hin|[?|[]]].
  - by apply in_map_iff in Hin as (? & ? & _).
  - done.
Qed.

Section SplitRows.

Variable os_sep : ascii.
Variables base ext : string.
Variable header : list string.
Variable field_variable : string.
Variable step_name : string.
Variable coord_cache : gmap string (gmap Z Coordinates).

Local Notation "'act'" :=
  (do_action field_variable step_name coord_cache
             (get_writer_split os_sep base ext header)).

(** Every registered handle was opened and given the header.  One action
    keeps this, and writes a row only to such a handle. *)
Lemma split_action_rows_in_sinks a s ev1 s1 r1 past :
  (∀ R h, dict_get R (writer_handles s) = Some h →
          opened_with_header header past h) →
  act a s = (ev1, s1, r1) →
  (∀ R h, dict_get R (writer_handles s1) = Some h →
          opened_with_header header (past ++ ev1) h)
  ∧ (∀ pre h c post, ev1 = pre ++ EvWrite h (DataLine c) :: post →
                     opened_with_header header (past ++ pre) h).
Proof.
  intros Hinv. destruct a as [i [|]|[[[i t] region_name] value]]; simpl.
  - intros [= <- <- <-]. split.
    + intros R h HR. apply opened_with_header_app. by eapply Hinv.
    + intros pre h c post Heq. destruct pre as [|? [|? ?]]; simplify_eq/=.
  - unfold bind, emit, raise. simpl. intros [= <- <- <-]. split.
    + intros R h HR. apply opened_with_header_app. by eapply Hinv.
    + intros pre h c post Heq. destruct pre as [|? [|? ?]]; simplify_eq/=.
  - unfold write_value, bind, lift.
    destruct (lookup_coords _ _ _) as [coords|e].
    2: { intros [= <- <- <-]. split.
         - intros R h HR. apply opened_with_header_app. by eapply Hinv.
         - intros pre h c post Heq. by destruct pre. }
    rewrite get_writer_split_run.
    destruct (dict_get region_name (writer_handles s)) as [h0|] eqn:Hget;
      unfold writerow, emit; simpl; intros [= <- <- <-].
    + split.
      * intros R h HR. apply opened_with_header_app. by eapply Hinv.
      * intros pre h c post Heq. apply opened_with_header_app.
        destruct pre as [|? [|? ?]]; simplify_eq/=. by eapply Hinv.
    + simpl. split.
      * intros R h. rewrite dict_get_set.
        destruct (String.eqb R region_name).
        -- intros [= <-]. by eexists past, _, [_].
        -- intros HR. apply opened_with_header_app. by eapply Hinv.
      * intros pre h c post Heq.
        destruct pre as [|? [|? [|? [|? ?]]]]; simplify_eq/=.
        eexists past, _, []. done.
Qed.

Lemma split_loop_rows_in_sinks acts s evs s' r past :
  (∀ R h, dict_get R (writer_handles s) = Some h →
          opened_with_header header past h) →
  for_each act acts s = (evs, s', r) →
  ∀ pre h c post, evs = pre ++ EvWrite h (DataLine c) :: post →
                  opened_with_header header (past ++ pre) h.
Proof.
  revert s evs s' r past.
  induction acts as [|a acts IH]; intros s evs s' r past Hinv.
  { intros [= <- <- <-] pre h c post Heq. by destruct pre. }
  cbn [for_each]. unfold bind.
  destruct (act a s) as [[ev1 s1] r1] eqn:Hstep.
  destruct (split_action_rows_in_sinks _ _ _ _ _ past Hinv Hstep)
    as [Hinv1 Hrow1].
  destruct r1 as [[]|e]; [|by intros [= <- <- <-]].
  destruct (for_each act acts s1) as [[ev2 s2] r2] eqn:Hrest.
  intros [= <- <- <-] pre h c post Heq.
  apply app_eq_app in Heq as [l [[-> Hl]|[-> Hl]]].
  - destruct l as [|x l].
    + rewrite app_nil_r in *. simpl in Hl.
      pose proof (IH _ _ _ _ _ Hinv1 Hrest [] h c post) as H.
      rewrite app_nil_r in H. apply H. by rewrite <- Hl.
    + injection Hl as <- ->. by eapply Hrow1.
  - rewrite app_assoc. by eapply IH.
Qed.

End SplitRows.

Lemma expected_items_region_all root_assembly node_sets field_variable
    selection item :
  node_sets = None ∨ node_sets = Some [] →
  In item (expected_items root_assembly node_sets field_variable selection) →
  item.1.2 = "ALL".
Proof.
  intros Hnone. unfold expected_items. rewrite in_flat_map.
  intros ([i frame] & _ & Hitem).
  destruct (fieldOutputs frame !! field_variable) as [field|]; [|done].
  apply in_flat_map in Hitem as ([R sub] & HR & Hitem).
  apply in_map_iff in Hitem as (v & <- & _). simpl.
  by destruct Hnone as [-> | ->]; destruct HR as [[= <- _]|[]].
Qed.

(** C4.  The values to export are those of the field, frame by frame over
    the frames the loop reaches (the frames that pass the stride and window
    filters and come before every frame that ends the extraction), region by
    region in the order of the request (the whole field under the name ALL
    when no node set is requested, otherwise the subset of each requested
    node set under the name of that set), value by value.  The data rows of
    a run are, in order and one for one, the rows of these values, all of
    them when the run returns: frame index, frame time, region name,
    instance name, node label, the cached x, y, z of that instance and
    label, and the value.  Every data row goes to a handle that was opened
    before and whose first record is the header [frame_index, step_time,
    node_set, instance, node_label, x, y, z, <field variable>]; every file
    opened receives that header at once; the single sink is opened with its
    header even if no row follows.  On a step whose frame times never
    decrease the frames reached are all the frames that pass the filters. *)
Theorem rows_and_header
    os_sep os_altsep odb odb_path output_csv step_name node_sets
    field_variable start_time end_time frame_stride split_by_node_set
    step evs s' r :
  let cache := _build_coordinate_cache (instances (rootAssembly odb)) in
  let header :=
    ["frame_index"; "step_time"; "node_set"; "instance"; "node_label";
     "x"; "y"; "z"; field_variable] in
  let items :=
    expected_items (rootAssembly odb) node_sets field_variable
      (reached_frames frame_stride start_time end_time (frames step)) in
  (1 <= frame_stride)%Z →
  steps odb !! step_name = Some step →
  all_sets_exist (rootAssembly odb) node_sets →
  export_temperatures os_sep os_altsep odb odb_path output_csv step_name
    node_sets field_variable start_time end_time frame_stride
    split_by_node_set initial_state = (evs, s', r) →
  (∃ written pending,
     items = written ++ pending
     ∧ Forall2 (λ cells '(i, t, region_name, value),
                  ∃ x y z,
                    lookup_coords cache (name (instance value))
                                  (nodeLabel value) = Ok (x, y, z)
                    ∧ cells = [CInt (Z.of_nat i); CFloat t; CStr region_name;
                               CStr (name (instance value));
                               CInt (nodeLabel value);
                               CFloat x; CFloat y; CFloat z;
                               CFloat (data value)])
               (data_rows evs) written
     ∧ (r = Ok tt → pending = []))
  ∧ ((node_sets = None ∨ node_sets = Some []) →
     ∀ cells, In cells (data_rows evs) → row_region cells = Some "ALL")
  ∧ (∀ pre h cells post,
       evs = pre ++ EvWrite h (DataLine cells) :: post →
       ∃ before path after,
         pre = before ++ EvOpen h path :: EvWrite h (HeaderLine header)
                      :: after)
  ∧ (∀ h p, In (EvOpen h p) evs →
            ∃ pre post,
              evs = pre ++ EvOpen h p :: EvWrite h (HeaderLine header) :: post)
  ∧ (split_by_node_set = false →
     ∃ post,
       evs = EvOpenOdb odb_path :: EvOpen 0 output_csv
             :: EvWrite 0 (HeaderLine header) :: post)
  ∧ (time_ordered (frames step) →
     reached_frames frame_stride start_time end_time (frames step)
     = passing_frames frame_stride start_time end_time (frames step)).
Proof.
  intros cache header items Hstride Hstep Hsets Hrun. subst cache items.
  destruct (export_summary os_sep os_altsep odb odb_path output_csv step_name
              node_sets field_variable start_time end_time frame_stride
              split_by_node_set step Hstride Hstep Hsets)
    as (evs' & s'' & Hrun' & Hrows & _).
  rewrite Hrun in Hrun'. injection Hrun' as <- <- Hr.
  rewrite selected_reached in Hrows, Hr.
  destruct (selection_rows field_variable step_name
              (regions_for (rootAssembly odb) node_sets)
              (_build_coordinate_cache (instances (rootAssembly odb)))
              (reached_frames frame_stride start_time end_time (frames step)))
    as (written & pending & Hitems & Hmatch & Hok & _).
  rewrite <- Hrows in Hmatch. rewrite work_items_expected in Hitems by done.
  assert (header = header_row field_variable) as Hheader by done.
  clearbody header. subst header.
  rewrite (export_run _ _ _ _ _ _ _ _ _ _ _ _ step) in Hrun by done.
  destruct (for_each _ _ _) as [[loop s1] r1] eqn:Hloop.
  injection Hrun as <- <- <-.
  split_and!.
  - exists written, pending. split_and!; [done| |].
    + eapply Forall2_impl; [exact Hmatch|].
      by intros cells [[[i t] region_name] value].
    + intros ->. by apply Hok.
  - intros Hnone cells Hcells.
    destruct (Forall2_In_l _ _ _ _ Hmatch Hcells) as (item & Hitem & Hrow).
    apply row_matches_frame in Hrow as [_ ->]. f_equal.
    eapply expected_items_region_all; [done|].
    rewrite Hitems. apply in_or_app. by left.
  - intros pre h cells post Heq.
    unfold writer_setup in *. destruct split_by_node_set; simpl in *.
    + destruct pre as [|e pre]; [done|]. injection Heq as <- Heq.
      apply app_eq_app in Heq as [l [[-> Hl]|[-> Hl]]].
      * destruct l as [|x l]; simpl in Hl.
        { exfalso.
          apply (closing_events_write_nothing s1 h (DataLine cells)).
          rewrite <- Hl. by left. }
        injection Hl as <- _.
        change (opened_with_header (header_row field_variable)
                  ([EvOpenOdb odb_path] ++ pre) h).
        eapply split_loop_rows_in_sinks; [|exact Hloop|reflexivity]. done.
      * exfalso. apply (closing_events_write_nothing s1 h (DataLine cells)).
        rewrite Hl. apply in_elt.
    + destruct pre as [|e1 [|e2 [|e3 pre]]]; [done..|].
      injection Heq as <- <- <- Heq.
      assert (In (EvWrite h (DataLine cells)) (loop ++ closing_events s1))
        as Hin by (rewrite Heq; apply in_elt).
      apply in_app_or in Hin as [Hin|Hin];
        [|by apply closing_events_write_nothing in Hin].
      pose proof (single_loop_writes _ _ _ _ _ _ _ _ _ Hloop) as Hall.
      rewrite List.Forall_forall in Hall.
      destruct (Hall _ Hin) as [[i ?]|[c [= <- _]]]; [done|].
      by eexists [_], _, pre.
  - intros h p Hin.
    unfold writer_setup in *. destruct split_by_node_set; simpl in *.
    + destruct Hin as [?|Hin]; [done|].
      apply in_app_or in Hin as [Hin|Hin];
        [|by apply closing_events_open_nothing in Hin].
      destruct (split_loop_sinks _ _ _ _ _ _ _ _ _ _ _ _ Hloop) as [L1 _].
      destruct (L1 _ _ Hin) as (R & pre & cells & post & _ & _ & -> & _).
      exists (EvOpenOdb odb_path :: pre), (EvWrite h (DataLine cells)
                                            :: post ++ closing_events s1).
      simpl. by rewrite <- app_assoc.
    + destruct Hin as [?|[[= <- <-]|[?|Hin]]]; try done.
      * by exists [EvOpenOdb odb_path], (loop ++ closing_events s1).
      * apply in_app_or in Hin as [Hin|Hin];
          [|by apply closing_events_open_nothing in Hin].
        apply In_opened in Hin.
        pose proof (single_loop_opens_nothing field_variable step_name
          (_build_coordinate_cache (instances (rootAssembly odb))) 0
          (flat_map (frame_actions field_variable
                       (regions_for (rootAssembly odb) node_sets))
             (selected_frames start_time end_time frame_stride 0
                (frames step)))
          (mkState [("__all__", 0)] 1)) as Hnone.
        rewrite Hloop in Hnone. simpl in Hnone. by rewrite Hnone in Hin.
  - intros ->. simpl. by eexists.
  - apply reached_frames_ordered.
Qed.

(** Two requested node sets, a window that keeps the second and the third
    of four frames, one sink. *)
Lemma rows_and_header_witness :
  let run :=
    export_temperatures "/" None sample_odb "Job-4.odb" "out.csv" "Tenths"
      (Some ["B"; "A"]) "NT11" (Some (1 # 10)) (Some (2 # 10)) 1 false
      initial_state in
  let cache := _build_coordinate_cache (instances sample_assembly) in
  let header :=
    ["frame_index"; "step_time"; "node_set"; "instance"; "node_label";
     "x"; "y"; "z"; "NT11"] in
  let items :=
    expected_items sample_assembly (Some ["B"; "A"]) "NT11"
      (reached_frames 1 (Some (1 # 10)) (Some (2 # 10)) (frames tenths)) in
  data_rows run.1.1
  = [[CInt 1; CFloat (1 # 10); CStr "B"; CStr "PART-1"; CInt 8;
      CFloat 0; CFloat 0; CFloat 0; CFloat (300 # 1)];
     [CInt 1; CFloat (1 # 10); CStr "A"; CStr "PART-1"; CInt 7;
      CFloat 1; CFloat 2; CFloat 3; CFloat (701 # 2)];
     [CInt 2; CFloat (2 # 10); CStr "B"; CStr "PART-1"; CInt 8;
      CFloat 0; CFloat 0; CFloat 0; CFloat (300 # 1)];
     [CInt 2; CFloat (2 # 10); CStr "A"; CStr "PART-1"; CInt 7;
      CFloat 1; CFloat 2; CFloat 3; CFloat (701 # 2)]]
  ∧ items
    = [(1%nat, 1 # 10, "B", value8); (1%nat, 1 # 10, "A", value7);
       (2%nat, 2 # 10, "B", value8); (2%nat, 2 # 10, "A", value7)]
  ∧ (∃ written pending,
       items = written ++ pending
       ∧ Forall2 (λ cells '(i, t, region_name, value),
                    ∃ x y z,
                      lookup_coords cache (name (instance value))
                                    (nodeLabel value) = Ok (x, y, z)
                      ∧ cells = [CInt (Z.of_nat i); CFloat t;
                                 CStr region_name;
                                 CStr (name (instance value));
                                 CInt (nodeLabel value);
                                 CFloat x; CFloat y; CFloat z;
                                 CFloat (data value)])
                 (data_rows run.1.1) written
       ∧ (run.2 = Ok tt → pending = []))
  ∧ (∀ pre h cells post,
       run.1.1 = pre ++ EvWrite h (DataLine cells) :: post →
       ∃ before path after,
         pre = before ++ EvOpen h path :: EvWrite h (HeaderLine header)
                      :: after)
  ∧ (∀ h p, In (EvOpen h p) run.1.1 →
            ∃ pre post,
              run.1.1
              = pre ++ EvOpen h p :: EvWrite h (HeaderLine header) :: post)
  ∧ ∃ post,
      run.1.1 = EvOpenOdb "Job-4.odb" :: EvOpen 0 "out.csv"
                :: EvWrite 0 (HeaderLine header) :: post.
Proof.
  intros run cache header items.
  split; [by vm_compute|]. split; [by vm_compute|].
  destruct (rows_and_header "/" None sample_odb "Job-4.odb" "out.csv" "Tenths"
              (Some ["B"; "A"]) "NT11" (Some (1 # 10)) (Some (2 # 10)) 1
              false tenths run.1.1 run.1.2 run.2)
    as (Hrows & _ & Hsink & Hopen & Hsingle & _).
  - lia.
  - by vm_compute.
  - apply all_sets_exist_check. by vm_compute.
  - by vm_compute.
  - split; [exact Hrows|]. split; [exact Hsink|]. split; [exact Hopen|].
    by apply Hsingle.
Defined.

(** Without an order on the frame times a value may survive both filters and
    have no row: with frame times 5, 1, 9, 2, a stride of 1 and an end time
    of 6, the fourth frame has a time within the window and two values in
    the region ALL; the loop stops at the third frame, the run returns and
    its rows are those of the first two frames. *)
Lemma rows_are_missing_after_the_end :
  let run :=
    export_temperatures "/" None faulty_odb "Job-4.odb" "out.csv" "Unordered"
      None "NT11" None (Some (6 # 1)) 1 false initial_state in
  steps faulty_odb !! "Unordered" = Some unordered_step
  ∧ In (3%nat, frame_at 2)
       (passing_frames 1 None (Some (6 # 1)) (frames unordered_step))
  ∧ fieldOutputs (frame_at 2) !! "NT11" = Some (field_on [value7; value8])
  ∧ getSubset (field_on [value7; value8]) None = [value7; value8]
  ∧ run.2 = Ok tt
  ∧ map row_frame (data_rows run.1.1) = [Some 0; Some 0; Some 1; Some 1]%Z.
Proof.
  intros run. split_and!; try (by vm_compute).
  vm_compute. right. right. by left.
Qed.

(** * The paths of the split mode *)

Lemma safe_name_underscored os_sep set_name :
  safe_name_of os_sep set_name = underscored os_sep set_name.
Proof.
  unfold safe_name_of.
  induction set_name as [|c rest IH]; [done|].
  cbn [replace underscored]. rewrite IH. f_equal.
  destruct (Ascii.eqb c os_sep); reflexivity.
Qed.




(** * Regions that share a path *)

Section SplitHandles.

Variable os_sep : ascii.
Variables base ext : string.
Variable header : list string.
Variable field_variable : string.
Variable step_name : string.
Variable coord_cache : gmap string (gmap Z Coordinates).

Local Notation "'act'" :=
  (do_action field_variable step_name coord_cache
             (get_writer_split os_sep base ext header)).
Local Notation "'path_of'" := (split_path os_sep base ext).

(** Handles are fresh: a registered handle is below the next one, and two
    regions never share a handle.  A region registered by an action had its
    path opened on its handle by that action. *)
Lemma split_action_fresh a s ev1 s1 r1 :
  (∀ R h, dict_get R (writer_handles s) = Some h → (h < next_handle s)%nat) →
  (∀ R1 R2 h, dict_get R1 (writer_handles s) = Some h →
              dict_get R2 (writer_handles s) = Some h → R1 = R2) →
  act a s = (ev1, s1, r1) →
  (∀ R h, dict_get R (writer_handles s1) = Some h → (h < next_handle s1)%nat)
  ∧ (∀ R1 R2 h, dict_get R1 (writer_handles s1) = Some h →
                dict_get R2 (writer_handles s1) = Some h → R1 = R2)
  ∧ (∀ R h, dict_get R (writer_handles s) = None →
            dict_get R (writer_handles s1) = Some h →
            In (EvOpen h (path_of R)) ev1).
Proof.
  intros Hfresh Hinj.
  assert (∀ ev, act a s = (ev, s, r1) →
    (∀ R h, dict_get R (writer_handles s) = Some h → (h < next_handle s)%nat)
    ∧ (∀ R1 R2 h, dict_get R1 (writer_handles s) = Some h →
                  dict_get R2 (writer_handles s) = Some h → R1 = R2)
    ∧ (∀ R h, dict_get R (writer_handles s) = None →
              dict_get R (writer_handles s) = Some h →
              In (EvOpen h (path_of R)) ev)) as Hsame.
  { intros ev _. split_and!; [done|done|]. intros R h ->. done. }
  destruct a as [i [|]|[[[i t] region_name] value]]; simpl.
  - intros [= <- <- <-]. by eapply Hsame.
  - unfold bind, emit, raise. simpl. intros [= <- <- <-].
    split_and!; [done|done|]. intros R h ->. done.
  - unfold write_value, bind, lift.
    destruct (lookup_coords _ _ _) as [coords|e].
    2: { intros [= <- <- <-]. split_and!; [done|done|]. intros R h ->. done. }
    rewrite get_writer_split_run.
    destruct (dict_get region_name (writer_handles s)) as [h0|] eqn:Hget;
      unfold writerow, emit; simpl; intros [= <- <- <-].
    { split_and!; [done|done|]. intros R h ->. done. }
    simpl. split_and!.
    + intros R h. rewrite dict_get_set.
      destruct (String.eqb R region_name).
      * intros [= <-]. lia.
      * intros HR. apply Hfresh in HR. lia.
    + intros R1 R2 h. rewrite !dict_get_set.
      destruct (String.eqb_spec R1 region_name) as [->|?],
               (String.eqb_spec R2 region_name) as [->|?]; try done.
      * intros [= <-] HR. apply Hfresh in HR. lia.
      * intros HR [= <-]. apply Hfresh in HR. lia.
      * apply Hinj.
    + intros R h HR. rewrite dict_get_set.
      destruct (String.eqb_spec R region_name) as [->|?]; [|congruence].
      intros [= <-]. by left.
Qed.

Lemma split_loop_fresh acts s evs s' r :
  (∀ R h, dict_get R (writer_handles s) = Some h → (h < next_handle s)%nat) →
  (∀ R1 R2 h, dict_get R1 (writer_handles s) = Some h →
              dict_get R2 (writer_handles s) = Some h → R1 = R2) →
  for_each act acts s = (evs, s', r) →
  (∀ R1 R2 h, dict_get R1 (writer_handles s') = Some h →
              dict_get R2 (writer_handles s') = Some h → R1 = R2)
  ∧ (∀ R h, dict_get R (writer_handles s) = None →
            dict_get R (writer_handles s') = Some h →
            In (EvOpen h (path_of R)) evs).
Proof.
  revert s evs s' r.
  induction acts as [|a acts IH]; intros s evs s' r Hfresh Hinj.
  { intros [= <- <- <-]. split; [done|]. intros R h ->. done. }
  cbn [for_each]. unfold bind.
  destruct (act a s) as [[ev1 s1] r1] eqn:Hstep.
  destruct (split_action_fresh _ _ _ _ _ Hfresh Hinj Hstep)
    as (Hfresh1 & Hinj1 & Hopen1).
  destruct r1 as [[]|e]; [|by intros [= <- <- <-]].
  destruct (for_each act acts s1) as [[ev2 s2] r2] eqn:Hrest.
  destruct (IH _ _ _ _ Hfresh1 Hinj1 Hrest) as [Hinj2 Hopen2].
  destruct (split_loop_handles _ _ _ _ _ _ _ _ _ _ _ _ Hrest) as (Hkeep & _).
  intros [= <- <- <-]. split; [done|].
  intros R h HR Hh. apply in_or_app.
  destruct (dict_get R (writer_handles s1)) as [h1|] eqn:HR1.
  - left. apply Hkeep in HR1 as Hh1. rewrite Hh in Hh1.
    injection Hh1 as <-. by apply Hopen1.
  - right. by apply Hopen2.
Qed.

End SplitHandles.

(** X15.  The file name of a region does not determine the region: "A B"
    and "A_B" have one path, whatever the separator, the stem and the
    extension.  When two different regions with one path both have rows in a
    run of the split mode, that path is opened for writing twice, on two
    different handles; both opens happen before the [finally] block, before
    which no handle is closed, so that the second open truncates a file the
    first handle is still writing to. *)
Theorem colliding_regions_open_one_path_twice
    os_sep os_altsep odb odb_path output_csv step_name node_sets
    field_variable start_time end_time frame_stride step evs s' r
    R1 R2 c1 c2 :
  let stem := (splitext os_sep os_altsep output_csv).1 in
  let suffix := (splitext os_sep os_altsep output_csv).2 in
  let path_of := λ R,
    stem +:+ "__" +:+ underscored os_sep R
    +:+ (if String.eqb suffix "" then ".csv" else suffix) in
  (1 <= frame_stride)%Z →
  steps odb !! step_name = Some step →
  all_sets_exist (rootAssembly odb) node_sets →
  export_temperatures os_sep os_altsep odb odb_path output_csv step_name
    node_sets field_variable start_time end_time frame_stride
    true initial_state = (evs, s', r) →
  R1 ≠ R2 →
  underscored os_sep R1 = underscored os_sep R2 →
  In c1 (data_rows evs) → row_region c1 = Some R1 →
  In c2 (data_rows evs) → row_region c2 = Some R2 →
  (∀ sep base ext,
     split_path sep base ext "A B" = split_path sep base ext "A_B")
  ∧ path_of R1 = path_of R2
  ∧ ∃ h1 h2 body,
      h1 ≠ h2
      ∧ dict_get R1 (writer_handles s') = Some h1
      ∧ dict_get R2 (writer_handles s') = Some h2
      ∧ evs = EvOpenOdb odb_path :: body
              ++ map (λ entry : string * nat, EvClose entry.2)
                     (writer_handles s')
              ++ [EvCloseOdb]
      ∧ In (EvOpen h1 (path_of R1)) body
      ∧ In (EvOpen h2 (path_of R1)) body
      ∧ (∀ h, ¬ In (EvClose h) body).
Proof.
  intros stem suffix path_of Hstride Hstep Hsets Hrun Hne Hsame
         Hc1 HR1 Hc2 HR2.
  split. { intros sep base ext. unfold split_path.
           by rewrite safe_name_collision. }
  split. { unfold path_of. by rewrite Hsame. }
  assert (∀ R, path_of R
               = split_path os_sep stem (output_extension suffix) R) as Hpath.
  { intros R. unfold path_of, split_path. by rewrite safe_name_underscored. }
  rewrite (export_run _ _ _ _ _ _ _ _ _ _ _ _ step) in Hrun by done.
  destruct (for_each _ _ _) as [[loop s1] r1] eqn:Hloop.
  injection Hrun as <- <- <-. simpl in Hloop. simpl in Hc1, Hc2.
  destruct (closing_events_quiet s1) as (Hc & _ & _).
  rewrite data_rows_app, Hc, app_nil_r in Hc1, Hc2.
  pose proof (λ R, split_loop_registry _ _ _ _ _ _ _ _ _ _ _ _ R Hloop) as L3.
  destruct (proj2 (L3 R1)) as [h1 Hh1]; [right; by exists c1|].
  destruct (proj2 (L3 R2)) as [h2 Hh2]; [right; by exists c2|].
  edestruct split_loop_fresh as [Hinj Hopen]; [| |exact Hloop|]; [done..|].
  destruct (split_loop_handles _ _ _ _ _ _ _ _ _ _ _ _ Hloop)
    as (_ & _ & Hnoclose & _).
  exists h1, h2, loop. split_and!; [|done|done|done| | |done].
  - intros ->. apply Hne. by eapply Hinj.
  - rewrite Hpath. by apply Hopen.
  - replace (path_of R1) with (path_of R2) by (unfold path_of; by rewrite Hsame).
    rewrite Hpath. by apply Hopen.
Qed.

(** The node sets "A B" and "A_B" over one frame: two handles on one
    path. *)
Lemma colliding_regions_open_one_path_twice_witness :
  let run :=
    export_temperatures "/" None colliding_odb "Job-4.odb" "out.csv"
      "HeatStep" (Some ["A B"; "A_B"]) "NT11" None None 1 true
      initial_state in
  opened run.1.1 = [(0, "out__A_B.csv"); (1, "out__A_B.csv")]%nat
  ∧ map row_region (data_rows run.1.1) = [Some "A B"; Some "A_B"]
  ∧ ∃ h1 h2 body,
      h1 ≠ h2
      ∧ dict_get "A B" (writer_handles run.1.2) = Some h1
      ∧ dict_get "A_B" (writer_handles run.1.2) = Some h2
      ∧ run.1.1 = EvOpenOdb "Job-4.odb" :: body
                  ++ map (λ entry : string * nat, EvClose entry.2)
                         (writer_handles run.1.2)
                  ++ [EvCloseOdb]
      ∧ In (EvOpen h1 "out__A_B.csv") body
      ∧ In (EvOpen h2 "out__A_B.csv") body
      ∧ (∀ h, ¬ In (EvClose h) body).
Proof.
  intros run. split; [by vm_compute|]. split; [by vm_compute|].
  destruct (colliding_regions_open_one_path_twice "/" None colliding_odb
              "Job-4.odb" "out.csv" "HeatStep" (Some ["A B"; "A_B"]) "NT11"
              None None 1 (mkStep [frame_at 0]) run.1.1 run.1.2 run.2
              "A B" "A_B"
              [CInt 0; CFloat 0; CStr "A B"; CStr "PART-1"; CInt 7;
               CFloat 1; CFloat 2; CFloat 3; CFloat (701 # 2)]
              [CInt 0; CFloat 0; CStr "A_B"; CStr "PART-1"; CInt 8;
               CFloat 0; CFloat 0; CFloat 0; CFloat (300 # 1)])
    as (_ & _ & Htwice).
  - lia.
  - by vm_compute.
  - apply all_sets_exist_check. by vm_compute.
  - by vm_compute.
  - discriminate.
  - reflexivity.
  - vm_compute. by left.
  - reflexivity.
  - vm_compute. right. by left.
  - reflexivity.
  - exact Htwice.
Defined.

(** * Reuse of a sink *)

(** X10.  When [get_writer] returns a writer for a region, asking again for
    that region returns the same writer without opening or writing anything
    and without touching the registry, and the writers registered before
    are still returned as they were.  A region that is registered is served
    without any event; one that is not has its file opened and given the
    header, on the next free handle, which is the writer returned. *)
Theorem get_writer_split_reuses_sinks os_sep base ext header region s
    evs s1 writer :
  get_writer_split os_sep base ext header region s = (evs, s1, Ok writer) →
  get_writer_split os_sep base ext header region s1 = ([], s1, Ok writer)
  ∧ (∀ other w, dict_get other (writer_handles s) = Some w →
                get_writer_split os_sep base ext header other s1
                = ([], s1, Ok w))
  ∧ (is_Some (dict_get region (writer_handles s)) → evs = [] ∧ s1 = s)
  ∧ (dict_get region (writer_handles s) = None →
     writer = next_handle s
     ∧ evs = [EvOpen writer (split_path os_sep base ext region);
              EvWrite writer (HeaderLine header)]).
Proof.
  rewrite !get_writer_split_run.
  destruct (dict_get region (writer_handles s)) as [w0|] eqn:Hget.
  - intros [= <- <- <-]. rewrite Hget. split_and!; [done| |done|done].
    intros other w Hother. by rewrite get_writer_split_run, Hother.
  - intros [= <- <- <-]. simpl. rewrite dict_get_set, String.eqb_refl.
    split_and!; [done| |by intros [? ?]|done].
    intros other w Hother. rewrite get_writer_split_run. simpl.
    rewrite dict_get_set.
    destruct (String.eqb_spec other region) as [->|?]; [congruence|].
    by rewrite Hother.
Qed.

Lemma get_writer_split_reuses_sinks_witness :
  let first :=
    get_writer_split "/" "out" ".csv" (header_row "NT11") "SENSORS N"
                     (mkState [("A", 0%nat)] 1) in
  first = ([EvOpen 1 "out__SENSORS_N.csv";
            EvWrite 1 (HeaderLine (header_row "NT11"))],
           mkState [("A", 0%nat); ("SENSORS N", 1%nat)] 2, Ok 1%nat)
  ∧ get_writer_split "/" "out" ".csv" (header_row "NT11") "SENSORS N"
                     first.1.2
    = ([], first.1.2, Ok 1%nat)
  ∧ get_writer_split "/" "out" ".csv" (header_row "NT11") "A" first.1.2
    = ([], first.1.2, Ok 0%nat).
Proof.
  intros first. split; [reflexivity|].
  destruct (get_writer_split_reuses_sinks "/" "out" ".csv" (header_row "NT11")
              "SENSORS N" (mkState [("A", 0%nat)] 1)
              first.1.1 first.1.2 1%nat) as (Hagain & Hothers & _).
  - reflexivity.
  - split; [exact Hagain|]. apply Hothers. reflexivity.
Defined.
